(** * maplibre-contour: slope-angle tiles, the tile-fetch orchestrator and the
    worker/host RPC bridge.

    A shallow embedding of
      - src/slope-angle-tile.ts        (module [SlopeAngleTile])
      - src/slope-angle-source.ts      (module [SlopeAngleSource])
      - src/remote-protocol-handler.ts (module [RemoteProtocolHandler])
      - src/protocol-handler.ts        (module [ProtocolHandler])
    together with the properties of these functions.

    JavaScript numbers are IEEE-754 binary64 values; they are modelled by the
    Standard Library's [spec_float] at precision 53 and maximal exponent 1024,
    so every arithmetic operation below rounds the way the engine does.
    Pixel coordinates and tile indices are integers ([Z]); tile dimensions are
    natural numbers. *)

From Stdlib Require Import ZArith Lia Bool Ascii String.
From Stdlib Require Import Floats.SpecFloat.
From stdpp Require Import base option list strings pretty gmap.

Local Open Scope Z_scope.

(* ===================================================================== *)
(** * JavaScript numbers *)
(* ===================================================================== *)

Module Num.

Definition number : Type := spec_float.

Definition prec : Z := 53.
Definition emax : Z := 1024.

Definition NaN : number := S754_nan.

(** [Number.isNaN] on a number. *)
Definition is_nan (v : number) : bool :=
  match v with S754_nan => true | _ => false end.

(** An integer literal of the source, as the nearest binary64 value. *)
Definition of_Z (n : Z) : number := binary_normalize prec emax n 0 false.

Definition add : number -> number -> number := SFadd prec emax.
Definition sub : number -> number -> number := SFsub prec emax.
Definition mul : number -> number -> number := SFmul prec emax.
Definition div : number -> number -> number := SFdiv prec emax.
Definition sqrt : number -> number := SFsqrt prec emax.
Definition ltb : number -> number -> bool := SFltb.
Definition leb : number -> number -> bool := SFleb.

(** [Math.PI], 0x1.921fb54442d18p+1. *)
Definition PI : number := S754_finite false 7074237752028440 (-51).

(** [Math.min(a, b)] and [Math.max(a, b)] (ECMA-262, 21.3.2.25 and .24): NaN
    if either argument is NaN, and -0 is smaller than +0. *)
Definition Math_min (a b : number) : number :=
  match a, b with
  | S754_nan, _ | _, S754_nan => S754_nan
  | S754_zero sa, S754_zero sb => S754_zero (sa || sb)
  | _, _ => if SFltb b a then b else a
  end.

Definition Math_max (a b : number) : number :=
  match a, b with
  | S754_nan, _ | _, S754_nan => S754_nan
  | S754_zero sa, S754_zero sb => S754_zero (sa && sb)
  | _, _ => if SFltb a b then b else a
  end.

(** [Math.round(v)]: the integer nearest to [v], ties towards +infinity; the
    sign of a zero result is the sign of [v]. A finite [v] is [±m·2^e]; for
    [e < 0] the integer is [floor((±2m + 2^-e) / 2^(1-e))]. *)
Definition Math_round (v : number) : number :=
  match v with
  | S754_finite s m e =>
      if 0 <=? e then v
      else
        let sm := if s then Z.neg m else Z.pos m in
        binary_normalize prec emax ((2 * sm + 2 ^ (- e)) / 2 ^ (1 - e)) 0 s
  | _ => v
  end.

(** The integer part of a finite number (truncation towards zero). *)
Definition truncate (s : bool) (m : positive) (e : Z) : Z :=
  let a := if 0 <=? e then Z.pos m * 2 ^ e else Z.pos m / 2 ^ (- e) in
  if s then - a else a.

(** [ToUint8(v)], the conversion applied by a store into a [Uint8Array]:
    NaN, zeros and infinities give 0, a finite number is truncated and
    reduced modulo 256. *)
Definition ToUint8 (v : number) : Z :=
  match v with
  | S754_finite s m e => truncate s m e mod 256
  | _ => 0
  end.

(** [Math.fround(v)], the conversion applied by a store into a
    [Float32Array]: [v] rounded to the nearest binary32 value (precision 24,
    maximal exponent 128), read back as a binary64 value. *)
Definition fround (v : number) : number :=
  match v with
  | S754_finite s m e =>
      match binary_round 24 128 s m e with
      | S754_finite s' m' e' => binary_round prec emax s' m' e'
      | r => r
      end
  | _ => v
  end.

End Num.

(* ===================================================================== *)
(** * Values and typed arrays *)
(* ===================================================================== *)

(** A tile accessor is typed [(x, y) => number], yet an indexed read past the
    end of a typed array evaluates to [undefined]; both results are values. *)
Inductive value : Type :=
  | Num (v : Num.number)
  | Undefined.

(** [ToNumber]: [undefined] converts to NaN. *)
Definition ToNumber (v : value) : Num.number :=
  match v with Num n => n | Undefined => Num.NaN end.

(** The global [isNaN(v)] converts its argument with [ToNumber] first. *)
Definition isNaN (v : value) : bool := Num.is_nan (ToNumber v).

Module TypedArray.

(** [new Uint8Array(n)] and [new Float32Array(n)] are zero-filled. *)
Definition alloc {A : Type} (zero : A) (n : nat) : list A := replicate n zero.

(** [a[i]] for an integer index: the element, or [undefined] when the index
    is not within [0, length). *)
Definition read (a : list Num.number) (i : Z) : value :=
  if i <? 0 then Undefined
  else match a !! Z.to_nat i with
       | Some v => Num v
       | None => Undefined
       end.

End TypedArray.

(* ===================================================================== *)
(** * height-tile.ts (interface only) *)
(* ===================================================================== *)

Module HeightTile.

(** The part of [HeightTile] that slope-angle-tile.ts uses: the dimensions
    and the elevation accessor. *)
Record t : Type := Build {
  width : nat;
  height : nat;
  get : Z -> Z -> Num.number;
}.

End HeightTile.

(* ===================================================================== *)
(** * slope-angle-tile.ts *)
(* ===================================================================== *)

Module SlopeAngleTile.

Import Num.

Record t : Type := Build {
  width : nat;
  height : nat;
  get : Z -> Z -> value;
}.

Section FromHeightTile.

(** [Math.atan] is implementation-approximated (ECMA-262, 21.3.2): the
    development is parametric in it. *)
Variable Math_atan : number -> number.

(** [SlopeAngleTile.fromHeightTile(heightTile, pixelSize = 30)]. *)
Definition fromHeightTile (heightTile : HeightTile.t)
    (pixelSize : option number) : t :=
  let pixelSize := default (of_Z 30) pixelSize in
  Build (HeightTile.width heightTile) (HeightTile.height heightTile)
    (fun x y =>
       if (x <? 0) || (Z.of_nat (HeightTile.width heightTile) <=? x)
          || (y <? 0) || (Z.of_nat (HeightTile.height heightTile) <=? y)
       then Num NaN
       else
         let z1 := HeightTile.get heightTile (x - 1) (y - 1) in
         let z2 := HeightTile.get heightTile x (y - 1) in
         let z3 := HeightTile.get heightTile (x + 1) (y - 1) in
         let z4 := HeightTile.get heightTile (x - 1) y in
         let z6 := HeightTile.get heightTile (x + 1) y in
         let z7 := HeightTile.get heightTile (x - 1) (y + 1) in
         let z8 := HeightTile.get heightTile x (y + 1) in
         let z9 := HeightTile.get heightTile (x + 1) (y + 1) in
         let values := [z1; z2; z3; z4; z6; z7; z8; z9] in
         if existsb is_nan values then Num NaN
         else
           let dzdx :=
             div (sub (add (add z3 (mul (of_Z 2) z6)) z9)
                      (add (add z1 (mul (of_Z 2) z4)) z7))
                 (mul (of_Z 8) pixelSize) in
           let dzdy :=
             div (sub (add (add z7 (mul (of_Z 2) z8)) z9)
                      (add (add z1 (mul (of_Z 2) z2)) z3))
                 (mul (of_Z 8) pixelSize) in
           let slopeRadians :=
             Math_atan (sqrt (add (mul dzdx dzdx) (mul dzdy dzdy))) in
           let slopeDegrees := div (mul slopeRadians (of_Z 180)) PI in
           Num slopeDegrees).

End FromHeightTile.

(** One iteration of the inner loop of [toImageBuffer]: four stores at
    [bufferIdx++]. A store past the end of a typed array is dropped. *)
Definition writePixel (this : t) (maxAngle : number)
    (st : list Z * nat) (x y : nat) : list Z * nat :=
  let '(buffer, bufferIdx) := st in
  let angle := get this (Z.of_nat x) (Z.of_nat y) in
  let pixelValue :=
    if negb (isNaN angle)
    then Math_round (mul (Math_min (div (ToNumber angle) maxAngle) (of_Z 1))
                         (of_Z 255))
    else of_Z 0 in
  let buffer := <[bufferIdx := ToUint8 pixelValue]> buffer in
  let bufferIdx := S bufferIdx in
  let buffer := <[bufferIdx := ToUint8 pixelValue]> buffer in
  let bufferIdx := S bufferIdx in
  let buffer := <[bufferIdx := ToUint8 pixelValue]> buffer in
  let bufferIdx := S bufferIdx in
  let buffer :=
    <[bufferIdx := ToUint8 (if isNaN angle then of_Z 0 else of_Z 255)]>
      buffer in
  let bufferIdx := S bufferIdx in
  (buffer, bufferIdx).

(** [toImageBuffer(maxAngle = 45)]. *)
Definition toImageBuffer (this : t) (maxAngle : option number) : list Z :=
  let maxAngle := default (of_Z 45) maxAngle in
  let buffer := TypedArray.alloc 0 (width this * height this * 4) in
  fst (foldl
         (fun st y =>
            foldl (fun st x => writePixel this maxAngle st x y)
                  st (seq 0 (width this)))
         (buffer, 0%nat) (seq 0 (height this))).

(** [materialize()]: every value is stored into a [Float32Array], which
    rounds it to binary32, and the new accessor reads the array back at
    [y * width + x] without a bounds check. *)
Definition materialize (this : t) : t :=
  let data := TypedArray.alloc (of_Z 0) (width this * height this) in
  let '(data, _) :=
    foldl
      (fun st y =>
         foldl (fun st x =>
                  let '(data, idx) := st in
                  (<[idx := fround (ToNumber (get this (Z.of_nat x) (Z.of_nat y)))]>
                     data,
                   S idx))
               st (seq 0 (width this)))
      (data, 0%nat) (seq 0 (height this)) in
  Build (width this) (height this)
    (fun x y => TypedArray.read data (y * Z.of_nat (width this) + x)).

End SlopeAngleTile.

(* ===================================================================== *)
(** * Control flow: completions, promises, state passing *)
(* ===================================================================== *)

Module JS.

(** A thrown value or a rejection reason: an [Error] with its message, or a
    [TypeError] made by the engine (its message is the engine's own). *)
Inductive error : Type :=
  | Error (message : string)
  | TypeError.

(** How a block of statements ends. *)
Inductive completion (A : Type) : Type :=
  | Normal (a : A)
  | Throw (e : error).
Arguments Normal {A} a.
Arguments Throw {A} e.

(** How a promise ends. *)
Inductive settled (A : Type) : Type :=
  | Fulfilled (value : A)
  | Rejected (reason : error).
Arguments Fulfilled {A} value.
Arguments Rejected {A} reason.

(** The promise of an [async] function settles the way its body completes. *)
Definition settle {A : Type} (c : completion A) : settled A :=
  match c with Normal a => Fulfilled a | Throw e => Rejected e end.

(** Code that runs in a world [W] (the state of everything outside the
    function: the network, the host's own variables). *)
Definition M (W A : Type) : Type := W -> completion A * W.

Definition ret {W A : Type} (a : A) : M W A := fun w => (Normal a, w).

Definition bind {W A B : Type} (m : M W A) (k : A -> M W B) : M W B :=
  fun w =>
    match m w with
    | (Normal a, w') => k a w'
    | (Throw e, w') => (Throw e, w')
    end.

(** [array.forEach(f)]: the calls run in order; a call that throws ends the
    iteration. *)
Fixpoint forEach {W A : Type} (l : list A) (f : A -> M W unit) : M W unit :=
  match l with
  | [] => ret tt
  | a :: l' => bind (f a) (fun _ => forEach l' f)
  end.

(** [p.then(onFulfilled, onRejected)]: the handler that matches the outcome of
    [p] runs, and the new promise settles the way that handler completes. *)
Definition promise_then {W A B : Type} (p : settled A)
    (onFulfilled : A -> M W B) (onRejected : error -> M W B)
    : W -> settled B * W :=
  fun w =>
    match p with
    | Fulfilled a => let '(c, w') := onFulfilled a w in (settle c, w')
    | Rejected e => let '(c, w') := onRejected e w in (settle c, w')
    end.

(** [p.catch(onRejected)]: a fulfilled [p] passes through. *)
Definition promise_catch {W A : Type} (p : settled A)
    (onRejected : error -> M W A) : W -> settled A * W :=
  fun w =>
    match p with
    | Fulfilled a => (Fulfilled a, w)
    | Rejected e => let '(c, w') := onRejected e w in (settle c, w')
    end.

(** An [AbortController] is only created and handed on. *)
Inductive AbortController : Type := new_AbortController.

(** [Promise.allSettled([call_1, ..., call_n])]: the array literal makes every
    call, in order, and the join waits for every promise and keeps each
    outcome in its slot. *)
Fixpoint allSettled {W A : Type} (calls : list (W -> settled A * W))
    : W -> list (settled A) * W :=
  fun w =>
    match calls with
    | [] => ([], w)
    | call :: calls' =>
        let '(r, w') := call w in
        let '(rs, w'') := allSettled calls' w' in
        (r :: rs, w'')
    end.

End JS.

(* ===================================================================== *)
(** * height-tile.ts: combineNeighbors *)
(* ===================================================================== *)

Module Stitch.

Import Num.

(** Modelled from the spec: [HeightTile.combineNeighbors] (height-tile.ts is
    not part of the sources at hand). Section 4.1: the result is absent when
    the center grid (slot 4 of nw, n, ne, w, c, e, sw, s, se) is absent;
    otherwise it has the center's dimensions, delegates in-bounds reads to the
    center, reads the one-pixel ring from the neighbor in that compass
    direction (NaN when that neighbor is absent) with the coordinate shifted
    into the neighbor, and is NaN beyond the ring. *)
Definition combineNeighbors (neighbors : list (option HeightTile.t))
    : option HeightTile.t :=
  match neighbors !! 4%nat with
  | Some (Some mainTile) =>
      let width := Z.of_nat (HeightTile.width mainTile) in
      let height := Z.of_nat (HeightTile.height mainTile) in
      Some (HeightTile.Build
              (HeightTile.width mainTile) (HeightTile.height mainTile)
              (fun x y =>
                 if (x <? -1) || (width <? x) || (y <? -1) || (height <? y)
                 then NaN
                 else
                   let '(row, y') :=
                     if y <? 0 then (0%nat, y + height)
                     else if y <? height then (3%nat, y)
                     else (6%nat, y - height) in
                   let '(col, x') :=
                     if x <? 0 then (0%nat, x + width)
                     else if x <? width then (1%nat, x)
                     else (2%nat, x - width) in
                   match neighbors !! (row + col)%nat with
                   | Some (Some grid) => HeightTile.get grid x' y'
                   | _ => NaN
                   end))
  | _ => None
  end.

End Stitch.

(* ===================================================================== *)
(** * slope-angle-source.ts *)
(* ===================================================================== *)

Module SlopeAngleSource.

Import Num JS.

(** The fields of the maplibre interop types that the code reads. *)
Record RequestParameters : Type := { url : string }.

Record GetResourceResponse : Type := {
  data : list Z;
  cacheControl : option string;
  expires : option Z;
}.

(** ** v3compat *)

(** A maplibre-3 callback [(error?, data?, cacheControl?, expires?) => void]:
    user code, which acts on the world and may throw. *)
Definition ResponseCallbackV3 (W : Type) : Type :=
  option error -> option (list Z) -> option string -> option Z -> M W unit.

Inductive Arg2 (W : Type) : Type :=
  | OfAbortController (abortController : AbortController)
  | OfCallback (callback : ResponseCallbackV3 W).
Arguments OfAbortController {W} abortController.
Arguments OfCallback {W} callback.

Inductive V3OrV4Result : Type :=
  | V4Promise (promise : settled GetResourceResponse)
  | V3Cancel (abortController : AbortController).

Definition AddProtocolAction (W : Type) : Type :=
  RequestParameters -> AbortController -> W -> settled GetResourceResponse * W.

(** [v3compat(v4)(requestParameters, arg2)]; the world returned is the one
    reached when the promise chain of the callback branch has settled. *)
Definition v3compat {W : Type} (v4 : AddProtocolAction W)
    (requestParameters : RequestParameters) (arg2 : Arg2 W)
    : W -> V3OrV4Result * W :=
  fun w =>
    match arg2 with
    | OfAbortController abortController =>
        let '(p, w) := v4 requestParameters abortController w in
        (V4Promise p, w)
    | OfCallback callback =>
        let abortController := new_AbortController in
        let '(p, w) := v4 requestParameters abortController w in
        let '(p, w) :=
          promise_then p
            (fun result =>
               callback None (Some (data result)) (cacheControl result)
                        (expires result))
            (fun err => callback (Some err) None None None) w in
        let '(_, w) :=
          promise_catch p (fun err => callback (Some err) None None None) w in
        (V3Cancel abortController, w)
    end.

(** ** The constructor and the module-level set [used] *)

(** [while (used.has(protocolPrefix)) protocolPrefix = id + i++], run for at
    most [fuel] tests of the condition. [id + i] appends the decimal digits
    of [i] (the counter stays far below 2^53, where [i++] is exact). *)
Fixpoint uniquePrefix (fuel : nat) (used : gset string) (id : string)
    (protocolPrefix : string) (i : nat) : option string :=
  match fuel with
  | O => None
  | S fuel' =>
      if bool_decide (protocolPrefix ∈ used)
      then uniquePrefix fuel' used id (id +:+ pretty i) (S i)
      else Some protocolPrefix
  end.

(** Modelled from the spec: [Timing] of types.ts and [Timer] of
    performance.ts, an opaque success-or-error measurement of one request. *)
Inductive Timing : Type :=
  | TimingFinish (url : string)
  | TimingError (url : string).

Section Source.

(** The world outside the source, and the collaborators that are not part of
    the files at hand: the decoded DEM tile with [HeightTile.fromRawDem], and
    the platform's [Math.atan], [parseFloat], [URLSearchParams] and
    [Date.now]. *)
Variable W : Type.
Variable DemTile : Type.
Variable fromRawDem : DemTile -> HeightTile.t.
Variable Math_atan : number -> number.
Variable parseFloat : string -> number.
Variable URLSearchParams_get : string -> string -> option string.
Variable Date_now : W -> Z.

Record DemManager : Type := {
  fetchAndParseTile :
    number -> number -> number -> AbortController -> W -> settled DemTile * W;
}.

Record t : Type := Build {
  slopeProtocolId : string;
  slopeProtocolUrl : string;
  demManager : DemManager;
  timingCallbacks : list (Timing -> M W unit);
}.

(** [new SlopeAngleSource({demManager, id = "slope"})], threading [used].
    [None] stands for a loop that has not finished within [size used + 1]
    tests. *)
Definition new (demManager : DemManager) (id : option string)
    (used : gset string) : option (t * gset string) :=
  let id := default "slope" id in
  match uniquePrefix (S (size used)) used id id 1 with
  | Some protocolPrefix =>
      let used := {[ protocolPrefix ]} ∪ used in
      let slopeProtocolId := protocolPrefix +:+ "-slope" in
      Some (Build slopeProtocolId (slopeProtocolId +:+ "://{z}/{x}/{y}")
                  demManager [],
            used)
  | None => None
  end.

(** [onTiming(callback)]. *)
Definition onTiming (this : t) (callback : Timing -> M W unit) : t :=
  Build (slopeProtocolId this) (slopeProtocolUrl this) (demManager this)
        (timingCallbacks this ++ [callback]).

(** ** parseUrl *)

Definition is_digit (c : ascii) : bool :=
  (48 <=? Z.of_nat (nat_of_ascii c)) && (Z.of_nat (nat_of_ascii c) <=? 57).

(** The longest run of digits at the head of [s], as [\d+] matches it: its
    decimal value ([None] when the run is empty) and what follows. *)
Fixpoint digits (s : string) (acc : option Z) : option Z * string :=
  match s with
  | String c s' =>
      if is_digit c
      then digits s' (Some (10 * default 0 acc + (Z.of_nat (nat_of_ascii c) - 48)))
      else (acc, s)
  | EmptyString => (acc, s)
  end.

Definition slash (s : string) : option string :=
  match s with
  | String c s' => if Ascii.eqb c "/" then Some s' else None
  | EmptyString => None
  end.

(** A match of [/\/\/(\d+)\/(\d+)\/(\d+)/] that starts at the head of [s]. *)
Definition match_here (s : string) : option (Z * Z * Z) :=
  s ← slash s; s ← slash s;
  let '(z, s) := digits s None in z ← z;
  s ← slash s;
  let '(x, s) := digits s None in x ← x;
  s ← slash s;
  let '(y, _) := digits s None in y ← y;
  Some (z, x, y).

(** [regexp.exec(s)]: the leftmost match. *)
Fixpoint exec (s : string) : option (Z * Z * Z) :=
  match match_here s with
  | Some r => Some r
  | None =>
      match s with
      | String _ s' => exec s'
      | EmptyString => None
      end
  end.

(** [parseUrl(url)]: [Number] of each group, NaN three times without a
    match. *)
Definition parseUrl (url : string) : number * number * number :=
  match exec url with
  | Some (z, x, y) => (of_Z z, of_Z x, of_Z y)
  | None => (NaN, NaN, NaN)
  end.

(** [s.split('?')[1] || '']: the text between the first and the second
    question mark. *)
Fixpoint upto_question (s : string) : string :=
  match s with
  | String c s' => if Ascii.eqb c "?" then "" else String c (upto_question s')
  | EmptyString => ""
  end.

Fixpoint query (s : string) : string :=
  match s with
  | String c s' => if Ascii.eqb c "?" then upto_question s' else query s'
  | EmptyString => ""
  end.

(** [urlParams.get(name) || fallback]: [null] and the empty string are
    falsy. *)
Definition param_or (params name fallback : string) : string :=
  match URLSearchParams_get params name with
  | Some v => if decide (v = "") then fallback else v
  | None => fallback
  end.

(** ** slopeProtocolV4 *)

(** The [try] block: on success, the value assigned to [timing] and the
    value returned. *)
Definition tryBlock (this : t) (request : RequestParameters)
    (abortController : AbortController) : M W (Timing * GetResourceResponse) :=
  fun w =>
    let '(z, x, y) := parseUrl (url request) in
    let urlParams := query (url request) in
    let maxAngle := parseFloat (param_or urlParams "maxAngle" "45") in
    let pixelSize := parseFloat (param_or urlParams "pixelSize" "30") in
    let fetch := fetchAndParseTile (demManager this) in
    let one := of_Z 1 in
    let '(neighbors, w) :=
      allSettled
        [ fetch z (sub x one) (sub y one) abortController;
          fetch z x (sub y one) abortController;
          fetch z (add x one) (sub y one) abortController;
          fetch z (sub x one) y abortController;
          fetch z x y abortController;
          fetch z (add x one) y abortController;
          fetch z (sub x one) (add y one) abortController;
          fetch z x (add y one) abortController;
          fetch z (add x one) (add y one) abortController ] w in
    let heightTiles :=
      map (fun result =>
             match result with
             | Fulfilled value => Some (fromRawDem value)
             | Rejected _ => None
             end) neighbors in
    match Stitch.combineNeighbors heightTiles with
    | None => (Throw (Error "Center tile is required but was not available"), w)
    | Some combinedHeightTile =>
        let slopeAngleTile :=
          SlopeAngleTile.fromHeightTile Math_atan combinedHeightTile
            (Some pixelSize) in
        let imageBuffer :=
          SlopeAngleTile.toImageBuffer slopeAngleTile (Some maxAngle) in
        let timing := TimingFinish (url request) in
        (Normal (timing,
                 {| data := imageBuffer;
                    cacheControl := Some "public, max-age=3600";
                    expires := Some (Date_now w + 3600 * 1000) |}), w)
    end.

(** [slopeProtocolV4(request, abortController)]: try, catch (which assigns
    [timing] and rethrows) and finally (which calls every timing callback;
    a throw from there replaces the completion of the blocks before it). *)
Definition slopeProtocolV4 (this : t) : AddProtocolAction W :=
  fun request abortController w =>
    let '(c, w) := tryBlock this request abortController w in
    let '(timing, c) :=
      match c with
      | Normal (timing, response) => (timing, Normal response)
      | Throw error => (TimingError (url request), Throw error)
      end in
    match forEach (timingCallbacks this) (fun cb => cb timing) w with
    | (Normal _, w) => (settle c, w)
    | (Throw e, w) => (Rejected e, w)
    end.

(** [slopeProtocol = v3compat(this.slopeProtocolV4)]. *)
Definition slopeProtocol (this : t)
    : RequestParameters -> Arg2 W -> W -> V3OrV4Result * W :=
  v3compat (slopeProtocolV4 this).

(** ** getSlopeProtocolUrl *)

(** The platform's [Number.prototype.toString] and
    [URLSearchParams.prototype.toString]; a [URLSearchParams] is its list of
    name-value pairs. *)
Variable Number_toString : number -> string.
Variable URLSearchParams_toString : list (string * string) -> string.

(** [params.set(name, value)]: the first pair named [name] gets the value and
    the other pairs of that name are removed; without such a pair, the new
    pair is appended. *)
Fixpoint URLSearchParams_set (params : list (string * string))
    (name value : string) : list (string * string) :=
  match params with
  | [] => [(name, value)]
  | (n, v) :: params' =>
      if decide (n = name)
      then (name, value) :: filter (fun p => p.1 <> name) params'
      else (n, v) :: URLSearchParams_set params' name value
  end.

Record SlopeAngleOptions : Type := {
  maxAngle : option number;
  pixelSize : option number;
}.

(** [getSlopeProtocolUrl(options = {})]. *)
Definition getSlopeProtocolUrl (this : t) (options : SlopeAngleOptions)
    : string :=
  let params := [] in
  let params :=
    match maxAngle options with
    | Some v => URLSearchParams_set params "maxAngle" (Number_toString v)
    | None => params
    end in
  let params :=
    match pixelSize options with
    | Some v => URLSearchParams_set params "pixelSize" (Number_toString v)
    | None => params
    end in
  let queryString := URLSearchParams_toString params in
  slopeProtocolUrl this
  +:+ (if decide (queryString = "") then "" else "?" +:+ queryString).

End Source.

End SlopeAngleSource.

(* ===================================================================== *)
(** * remote-protocol-handler.ts (the requesting side, in the worker) *)
(* ===================================================================== *)

Module RemoteProtocolHandler.

Import JS.

Record FetchResponse : Type := {
  data : list Z;
  expires : option string;
  cacheControl : option string;
}.

(** [{id, payload: {url}}], posted by the worker. *)
Record Request : Type := { req_id : string; req_url : string }.

(** [{id, payload}], received by the worker. *)
Record Response : Type := { res_id : string; res_payload : FetchResponse }.

Inductive PromiseState : Type :=
  | Pending
  | FulfilledWith (v : FetchResponse)
  | RejectedWith (e : error).

(** The function [resolve] that [Promise.withResolvers()] returns for the
    promise numbered [promise] (the [reject] beside it is not kept). *)
Inductive Resolver : Type :=
  | resolve (promise : nat).

(** The state of the worker module: [id], [callbacks], the promises made by
    [Promise.withResolvers], the messages handed to [self.postMessage], and
    the calls made to resolvers so far. The own properties of the object
    [callbacks] are a finite map from ids to resolvers; what the object
    inherits is [Object_prototype] below. The counter [id] stays far below
    2^53, where [id++] is exact. *)
Record Worker : Type := {
  id : nat;
  callbacks : gmap string Resolver;
  promises : list PromiseState;
  posted : list Request;
  invoked : list (Resolver * FetchResponse);
}.

Definition init : Worker :=
  {| id := 0; callbacks := ∅; promises := []; posted := []; invoked := [] |}.

(** Calling [resolve] fulfils its promise if it is still pending. *)
Definition settlePromise (r : Resolver) (payload : FetchResponse)
    (ps : list PromiseState) : list PromiseState :=
  let '(resolve promise) := r in
  match ps !! promise with
  | Some Pending => <[promise := FulfilledWith payload]> ps
  | _ => ps
  end.

(** [callbacks] is a plain object, so [callbacks[id]] also finds the members
    of [Object.prototype] (ECMA-262, 20.1.3 and B.2.2). For each name, how
    the call [callbacks[id](payload)] completes when [id] is no own property:
    [__proto__] holds an object, which is not callable, and
    [__defineGetter__] and [__defineSetter__] throw for a second argument
    that is not callable; the other members are functions that return for
    any payload of type [FetchResponse] and leave [callbacks] as it is. For
    every other name the value is [undefined]. *)
Definition Object_prototype (name : string) : option (completion unit) :=
  if bool_decide (name ∈ ["__proto__"; "__defineGetter__"; "__defineSetter__"])
  then Some (Throw TypeError)
  else if bool_decide
            (name ∈ ["constructor"; "hasOwnProperty"; "isPrototypeOf";
                     "propertyIsEnumerable"; "toLocaleString"; "toString";
                     "valueOf"; "__lookupGetter__"; "__lookupSetter__"])
  then Some (Normal tt)
  else None.

(** The message listener, [callbacks[id]?.(payload); delete callbacks[id]],
    for a message whose [data] is an object and whose [id] converts to the
    property key [res_id]: how the listener completes and the state it
    leaves. An own property is a resolver, which is called; an inherited
    member is called too; [undefined] is skipped by [?.]. When the call
    throws, the [delete] is not reached. *)
Definition onmessage (m : Response) (w : Worker) : completion unit * Worker :=
  let k := res_id m in
  let '(called, w) :=
    match callbacks w !! k with
    | Some r =>
        (Normal tt,
         {| id := id w; callbacks := callbacks w;
            promises := settlePromise r (res_payload m) (promises w);
            posted := posted w;
            invoked := invoked w ++ [(r, res_payload m)] |})
    | None => (default (Normal tt) (Object_prototype k), w)
    end in
  match called with
  | Throw e => (Throw e, w)
  | Normal _ =>
      (Normal tt,
       {| id := id w; callbacks := delete k (callbacks w);
          promises := promises w; posted := posted w; invoked := invoked w |})
  end.

(** What [getData] returns: the promise of the direct [fetch], given by its
    outcome, or the promise made by [Promise.withResolvers]. *)
Inductive DataPromise : Type :=
  | Direct (outcome : settled FetchResponse)
  | Delegated (promise : nat).

Record HttpResponse : Type := {
  ok : bool;
  status : nat;
  blob : list Z;
  headers_get : string -> option string;
}.

(** [value || undefined]: [null] and the empty string are falsy. *)
Definition or_undefined (v : option string) : option string :=
  match v with
  | Some s => if decide (s = "") then None else Some s
  | None => None
  end.

Definition idPrefix : string := "maplibre-contours-get-data-".

Section GetData.

(** The platform's [fetch], by the outcome of the promise it returns. *)
Variable fetch : string -> AbortController -> settled HttpResponse.

(** [getData(url, abortController)]. *)
Definition getData (url : string) (abortController : AbortController)
    (w : Worker) : DataPromise * Worker :=
  if String.prefix "https://" url then
    (Direct
       match fetch url abortController with
       | Fulfilled response =>
           if negb (ok response)
           then Rejected (Error ("Bad response: " +:+ pretty (status response)
                                  +:+ " for " +:+ url))
           else Fulfilled {| data := blob response;
                             expires := or_undefined (headers_get response "expires");
                             cacheControl :=
                               or_undefined (headers_get response "cache-control") |}
       | Rejected e => Rejected e
       end,
     w)
  else
    let eventId := idPrefix +:+ pretty (id w) in
    let promise := length (promises w) in
    (Delegated promise,
     {| id := S (id w);
        callbacks := <[eventId := resolve promise]> (callbacks w);
        promises := promises w ++ [Pending];
        posted := posted w ++ [{| req_id := eventId; req_url := url |}];
        invoked := invoked w |}).

(** What happens in the worker: calls of [getData] and incoming messages. *)
Inductive event : Type :=
  | Call (url : string)
  | Message (m : Response).

(** The state after an event. A listener that throws leaves the state it
    had reached, and the worker goes on with the next event. *)
Definition step (w : Worker) (e : event) : Worker :=
  match e with
  | Call url => snd (getData url new_AbortController w)
  | Message m => snd (onmessage m w)
  end.

Definition run (w : Worker) (es : list event) : Worker := foldl step w es.

End GetData.

End RemoteProtocolHandler.

(* ===================================================================== *)
(** * protocol-handler.ts (the responding side, in the host) *)
(* ===================================================================== *)

Module ProtocolHandler.

Import JS.
Import RemoteProtocolHandler.

(** What a registered protocol resolves to. *)
Record ProtocolResult : Type := {
  result_data : list Z;
  result_cacheControl : option string;
  result_expires : option string;
}.

Definition Protocol : Type :=
  string -> AbortController -> settled ProtocolResult.

(** [e.data] of a message that reaches the host: absent, or an object whose
    [id] need not be a string. *)
Record MessageData : Type := {
  msg_id : option string;
  msg_url : string;
}.

Section Register.

Variable getProtocol : string -> option Protocol.

(** The listener that [registerMapLibreProtocolHandler(getProtocol, worker)]
    adds: the outcome of the [async] listener and the messages it posts to
    the worker. *)
Definition listener (e_data : option MessageData)
    : settled unit * list Response :=
  match e_data with
  | None => (Fulfilled tt, [])
  | Some d =>
      match msg_id d with
      | None => (Fulfilled tt, [])
      | Some id =>
          if negb (String.prefix idPrefix id) then (Fulfilled tt, [])
          else
            match getProtocol (msg_url d) with
            | None =>
                (Rejected (Error "No registered protocol handler for undefined"), [])
            | Some protocol =>
                match protocol (msg_url d) new_AbortController with
                | Rejected e => (Rejected e, [])
                | Fulfilled result =>
                    (Fulfilled tt,
                     [ {| res_id := id;
                          res_payload :=
                            {| data := result_data result;
                               expires := result_expires result;
                               cacheControl := result_cacheControl result |} |} ])
                end
            end
      end
  end.

(** The two sides together: the host answers what the worker posts, and the
    worker receives what the host posts. *)
Definition answer (r : Request) : list Response :=
  snd (listener (Some {| msg_id := Some (req_id r); msg_url := req_url r |})).

Variable fetch : string -> AbortController -> settled HttpResponse.

(** One [getData] in the worker, followed by the host's answers to the
    messages this call posted. *)
Definition request (url : string) (w : Worker) : DataPromise * Worker :=
  let '(p, w') := getData fetch url new_AbortController w in
  let sent := drop (length (posted w)) (posted w') in
  (p, foldl (fun w m => snd (onmessage m w)) w' (sent ≫= answer)).

Definition requests (w : Worker) (urls : list string) : Worker :=
  foldl (fun w url => snd (request url w)) w urls.

End Register.

End ProtocolHandler.

(* ===================================================================== *)
(** * The vocabulary of the properties *)
(* ===================================================================== *)

(** ** Slope tiles *)

Definition in_bounds (width height : nat) (x y : Z) : Prop :=
  0 <= x < Z.of_nat width /\ 0 <= y < Z.of_nat height.

(** The eight samples around [(x, y)], in the order z1 z2 z3 z4 z6 z7 z8 z9. *)
Definition neighborhood (heightTile : HeightTile.t) (x y : Z)
    : list Num.number :=
  [ HeightTile.get heightTile (x - 1) (y - 1);
    HeightTile.get heightTile x (y - 1);
    HeightTile.get heightTile (x + 1) (y - 1);
    HeightTile.get heightTile (x - 1) y;
    HeightTile.get heightTile (x + 1) y;
    HeightTile.get heightTile (x - 1) (y + 1);
    HeightTile.get heightTile x (y + 1);
    HeightTile.get heightTile (x + 1) (y + 1) ].

(** Horn's estimator as the specification writes it:
    [dzdx = ((z3 + 2 z6 + z9) - (z1 + 2 z4 + z7)) / (8 pixelSize)],
    [dzdy = ((z7 + 2 z8 + z9) - (z1 + 2 z2 + z3)) / (8 pixelSize)],
    [degrees = atan(sqrt(dzdx^2 + dzdy^2)) * 180 / pi]. *)
Definition horn_dzdx (z1 z3 z4 z6 z7 z9 pixelSize : Num.number) : Num.number :=
  Num.div
    (Num.sub (Num.add (Num.add z3 (Num.mul (Num.of_Z 2) z6)) z9)
             (Num.add (Num.add z1 (Num.mul (Num.of_Z 2) z4)) z7))
    (Num.mul (Num.of_Z 8) pixelSize).

Definition horn_dzdy (z1 z2 z3 z7 z8 z9 pixelSize : Num.number) : Num.number :=
  Num.div
    (Num.sub (Num.add (Num.add z7 (Num.mul (Num.of_Z 2) z8)) z9)
             (Num.add (Num.add z1 (Num.mul (Num.of_Z 2) z2)) z3))
    (Num.mul (Num.of_Z 8) pixelSize).

Definition horn_degrees (atan : Num.number -> Num.number)
    (dzdx dzdy : Num.number) : Num.number :=
  Num.div
    (Num.mul (atan (Num.sqrt (Num.add (Num.mul dzdx dzdx) (Num.mul dzdy dzdy))))
             (Num.of_Z 180))
    Num.PI.

(** [clamp(v, lo, hi)], as the specification uses it. *)
Definition clamp (v lo hi : Num.number) : Num.number :=
  Num.Math_min (Num.Math_max v lo) hi.

(** The gray level the specification gives:
    [round(clamp(angle / maxAngle, 0, 1) * 255)], stored as a byte. *)
Definition spec_gray (angle : value) (maxAngle : Num.number) : Z :=
  Num.ToUint8
    (Num.Math_round
       (Num.mul (clamp (Num.div (ToNumber angle) maxAngle)
                       (Num.of_Z 0) (Num.of_Z 1))
                (Num.of_Z 255))).

(** The gray level the code stores: 0 for NaN, and otherwise
    [round(min(angle / maxAngle, 1) * 255)] converted to a byte, which wraps
    modulo 256. *)
Definition code_gray (angle : value) (maxAngle : Num.number) : Z :=
  if isNaN angle then 0
  else Num.ToUint8
         (Num.Math_round
            (Num.mul (Num.Math_min (Num.div (ToNumber angle) maxAngle)
                                   (Num.of_Z 1))
                     (Num.of_Z 255))).

(** The bytes [toImageBuffer] writes for the pixel of index [p]. *)
Definition pixelBytes (this : SlopeAngleTile.t) (maxAngle : Num.number)
    (p : nat) : list Z :=
  fst (SlopeAngleTile.writePixel this maxAngle ([0; 0; 0; 0], 0%nat)
         (p mod SlopeAngleTile.width this)%nat
         (p / SlopeAngleTile.width this)%nat).

(** *** Example tiles *)

(** A stand-in for [Math.atan] near zero, to evaluate examples. *)
Definition atan_first_order (v : Num.number) : Num.number := v.

(** A 2 x 2 grid at elevation 100. *)
Definition flat : HeightTile.t :=
  HeightTile.Build 2 2 (fun _ _ => Num.of_Z 100).

(** A 2 x 2 grid at elevation 100 whose western halo is missing. *)
Definition flat_no_west : HeightTile.t :=
  HeightTile.Build 2 2 (fun x y => if x <? 0 then Num.NaN else Num.of_Z 100).

(** A 1 x 1 tile whose only pixel is 0.1. *)
Definition tenth_tile : SlopeAngleTile.t :=
  SlopeAngleTile.Build 1 1 (fun _ _ => Num (Num.div (Num.of_Z 1) (Num.of_Z 10))).

(** A 2 x 2 tile whose pixel [(x, y)] holds [x + 10 y]. *)
Definition ramp_tile : SlopeAngleTile.t :=
  SlopeAngleTile.Build 2 2 (fun x y => Num (Num.of_Z (x + 10 * y))).

(** A 1 x 1 tile whose only pixel is a slope of 10 degrees. *)
Definition ten_degrees : SlopeAngleTile.t :=
  SlopeAngleTile.Build 1 1 (fun _ _ => Num (Num.of_Z 10)).

(** ** The legacy callback *)

(** The arguments of one call of a maplibre-3 callback. *)
Record CallbackArgs : Type := {
  arg_error : option JS.error;
  arg_data : option (list Z);
  arg_cacheControl : option string;
  arg_expires : option Z;
}.

(** A callback that records its calls; whether a call throws is decided by
    the calls before it and its arguments. *)
Definition recording_callback
    (behaviour : list CallbackArgs -> CallbackArgs -> JS.completion unit)
    : SlopeAngleSource.ResponseCallbackV3 (list CallbackArgs) :=
  fun error data cacheControl expires calls =>
    let args := {| arg_error := error; arg_data := data;
                   arg_cacheControl := cacheControl;
                   arg_expires := expires |} in
    (behaviour calls args, calls ++ [args]).

(** A [v4] action that fulfils with three bytes. *)
Definition three_bytes : SlopeAngleSource.AddProtocolAction (list CallbackArgs) :=
  fun _ _ calls =>
    (JS.Fulfilled {| SlopeAngleSource.data := [1; 2; 3];
                     SlopeAngleSource.cacheControl := None;
                     SlopeAngleSource.expires := None |}, calls).

(** A callback that throws when it is handed data. *)
Definition throws_on_data (calls : list CallbackArgs) (args : CallbackArgs)
    : JS.completion unit :=
  match arg_data args with
  | Some _ => JS.Throw (JS.Error "render failed")
  | None => JS.Normal tt
  end.

(** ** Protocol ids *)

(** The prefixes the loop tries after the base id: [id1], [id2], ... *)
Definition suffixed (id : string) (i : nat) : string := id +:+ pretty i.

(** Constructions one after the other, sharing [used]. *)
Fixpoint construct_all {W DemTile : Type}
    (demManager : SlopeAngleSource.DemManager W DemTile)
    (ids : list (option string)) (used : gset string)
    : option (list (SlopeAngleSource.t W DemTile) * gset string) :=
  match ids with
  | [] => Some ([], used)
  | id :: ids' =>
      match SlopeAngleSource.new W DemTile demManager id used with
      | Some (source, used') =>
          match construct_all demManager ids' used' with
          | Some (sources, used'') => Some (source :: sources, used'')
          | None => None
          end
      | None => None
      end
  end.

(** ** The tile request *)

(** The tiles [(x-1..x+1, y-1..y+1)] at zoom [z], in the slot order
    nw, n, ne, w, c, e, sw, s, se. *)
Definition slots (z x y : Num.number)
    : list (Num.number * Num.number * Num.number) :=
  let west := Num.sub x (Num.of_Z 1) in
  let east := Num.add x (Num.of_Z 1) in
  let north := Num.sub y (Num.of_Z 1) in
  let south := Num.add y (Num.of_Z 1) in
  [ (z, west, north); (z, x, north); (z, east, north);
    (z, west, y); (z, x, y); (z, east, y);
    (z, west, south); (z, x, south); (z, east, south) ].

(** The fetch of one slot, as a call on the world. *)
Definition fetchSlot {W DemTile : Type} (this : SlopeAngleSource.t W DemTile)
    (abortController : JS.AbortController)
    (slot : Num.number * Num.number * Num.number)
    : W -> JS.settled DemTile * W :=
  SlopeAngleSource.fetchAndParseTile W DemTile
    (SlopeAngleSource.demManager W DemTile this)
    slot.1.1 slot.1.2 slot.2 abortController.

(** A failed slot is an absent grid. *)
Definition heightTiles {DemTile : Type} (fromRawDem : DemTile -> HeightTile.t)
    (results : list (JS.settled DemTile)) : list (option HeightTile.t) :=
  map (fun result =>
         match result with
         | JS.Fulfilled value => Some (fromRawDem value)
         | JS.Rejected _ => None
         end) results.

(** The response for a combined grid. *)
Definition encoded (Math_atan : Num.number -> Num.number)
    (parseFloat : string -> Num.number)
    (URLSearchParams_get : string -> string -> option string)
    (request : SlopeAngleSource.RequestParameters)
    (combined : HeightTile.t) (now : Z) : SlopeAngleSource.GetResourceResponse :=
  let urlParams := SlopeAngleSource.query (SlopeAngleSource.url request) in
  let maxAngle :=
    parseFloat (SlopeAngleSource.param_or URLSearchParams_get urlParams
                  "maxAngle" "45") in
  let pixelSize :=
    parseFloat (SlopeAngleSource.param_or URLSearchParams_get urlParams
                  "pixelSize" "30") in
  {| SlopeAngleSource.data :=
       SlopeAngleTile.toImageBuffer
         (SlopeAngleTile.fromHeightTile Math_atan combined (Some pixelSize))
         (Some maxAngle);
     SlopeAngleSource.cacheControl := Some "public, max-age=3600";
     SlopeAngleSource.expires := Some (now + 3600 * 1000) |}.

(** What the blocks before [finally] hand over: the value of [timing] and
    the outcome of the request. *)
Definition underlying (request : SlopeAngleSource.RequestParameters)
    (c : JS.completion
           (SlopeAngleSource.Timing * SlopeAngleSource.GetResourceResponse))
    : SlopeAngleSource.Timing * JS.settled SlopeAngleSource.GetResourceResponse :=
  match c with
  | JS.Normal (timing, response) => (timing, JS.Fulfilled response)
  | JS.Throw error =>
      (SlopeAngleSource.TimingError (SlopeAngleSource.url request),
       JS.Rejected error)
  end.

(** *** A test bench: a manager that records the tiles it is asked for *)

Definition Log : Type := list (Num.number * Num.number * Num.number).

Definition recording_manager
    (outcome : Num.number -> Num.number -> Num.number -> JS.settled HeightTile.t)
    : SlopeAngleSource.DemManager Log HeightTile.t :=
  {| SlopeAngleSource.fetchAndParseTile :=
       fun z x y _ log => (outcome z x y, log ++ [(z, x, y)]) |}.

(** No tile can be fetched. *)
Definition offline (z x y : Num.number) : JS.settled HeightTile.t :=
  JS.Rejected (JS.Error "offline").

(** Only tile 5/10/10 can be fetched. *)
Definition center_only (z x y : Num.number) : JS.settled HeightTile.t :=
  if SFeqb x (Num.of_Z 10) && SFeqb y (Num.of_Z 10)
  then JS.Fulfilled flat
  else JS.Rejected (JS.Error "offline").

Definition bench_source
    (outcome : Num.number -> Num.number -> Num.number -> JS.settled HeightTile.t)
    (callbacks : list (SlopeAngleSource.Timing -> JS.M Log unit))
    : SlopeAngleSource.t Log HeightTile.t :=
  SlopeAngleSource.Build Log HeightTile.t "slope-slope"
    "slope-slope://{z}/{x}/{y}" (recording_manager outcome) callbacks.

(** A stand-in for [parseFloat] on strings of digits. *)
Definition parseFloat_digits (s : string) : Num.number :=
  Num.of_Z (default 0 (fst (SlopeAngleSource.digits s None))).

(** The request for tile 5/10/10 on the bench, from an empty log. *)
Definition bench_protocol
    (outcome : Num.number -> Num.number -> Num.number -> JS.settled HeightTile.t)
    (callbacks : list (SlopeAngleSource.Timing -> JS.M Log unit))
    : JS.settled SlopeAngleSource.GetResourceResponse * Log :=
  SlopeAngleSource.slopeProtocolV4 Log HeightTile.t (fun dem => dem)
    atan_first_order parseFloat_digits (fun _ _ => None) (fun _ => 0)
    (bench_source outcome callbacks)
    {| SlopeAngleSource.url := "slope-slope://5/10/10" |}
    JS.new_AbortController [].

(** A timing callback that throws. *)
Definition failing_observer : SlopeAngleSource.Timing -> JS.M Log unit :=
  fun _ log => (JS.Throw (JS.Error "observer failed"), log).

(** A timing callback that returns. *)
Definition quiet_observer : SlopeAngleSource.Timing -> JS.M Log unit :=
  fun _ log => (JS.Normal tt, log).

(** ** The RPC bridge *)

(** The correlation id made from the counter value [n]. *)
Definition eventId (n : nat) : string :=
  RemoteProtocolHandler.idPrefix +:+ pretty n.

(** The invariant of the worker's state. Every pending resolver sits under an
    id already issued, belongs to a promise that is still pending and has
    not been called; no two ids share a resolver; the ids posted so far are
    those of the counter values below [id]; no resolver was called twice;
    and no promise is rejected. *)
Record wf (w : RemoteProtocolHandler.Worker) : Prop := {
  wf_callbacks :
    forall k h,
      RemoteProtocolHandler.callbacks w !! k
      = Some (RemoteProtocolHandler.resolve h) ->
      exists n, (n < RemoteProtocolHandler.id w)%nat /\ k = eventId n /\
                RemoteProtocolHandler.promises w !! h
                = Some RemoteProtocolHandler.Pending /\
                RemoteProtocolHandler.resolve h
                ∉ (RemoteProtocolHandler.invoked w).*1;
  wf_resolvers :
    forall k1 k2 r,
      RemoteProtocolHandler.callbacks w !! k1 = Some r ->
      RemoteProtocolHandler.callbacks w !! k2 = Some r -> k1 = k2;
  wf_posted :
    RemoteProtocolHandler.req_id <$> RemoteProtocolHandler.posted w
    = eventId <$> seq 0 (RemoteProtocolHandler.id w);
  wf_invoked : NoDup (RemoteProtocolHandler.invoked w).*1;
  wf_invoked_known :
    forall h,
      RemoteProtocolHandler.resolve h ∈ (RemoteProtocolHandler.invoked w).*1 ->
      (h < length (RemoteProtocolHandler.promises w))%nat;
  wf_not_rejected :
    forall h e,
      RemoteProtocolHandler.promises w !! h
      <> Some (RemoteProtocolHandler.RejectedWith e);
}.

(** The payload of the first message in [es] that bears the id [k]. *)
Fixpoint first_response (k : string) (es : list RemoteProtocolHandler.event)
    : option RemoteProtocolHandler.FetchResponse :=
  match es with
  | [] => None
  | RemoteProtocolHandler.Call _ :: es' => first_response k es'
  | RemoteProtocolHandler.Message m :: es' =>
      if decide (RemoteProtocolHandler.res_id m = k)
      then Some (RemoteProtocolHandler.res_payload m)
      else first_response k es'
  end.

(** The host-side handler for [url] fails: no protocol is registered for it,
    or the registered protocol rejects. *)
Definition host_fails (getProtocol : string -> option ProtocolHandler.Protocol)
    (url : string) : Prop :=
  getProtocol url = None \/
  exists protocol e,
    getProtocol url = Some protocol /\
    protocol url JS.new_AbortController = JS.Rejected e.

(** A network on which every direct fetch fails. *)
Definition no_network (url : string) (ac : JS.AbortController)
    : JS.settled RemoteProtocolHandler.HttpResponse :=
  JS.Rejected (JS.Error "no network").

(** A host with no protocol registered. *)
Definition no_protocol (url : string) : option ProtocolHandler.Protocol := None.

(** ** Further vocabulary *)

(** A number that is neither NaN nor infinite. *)
Definition is_finite (v : Num.number) : bool :=
  match v with
  | S754_zero _ | S754_finite _ _ _ => true
  | _ => false
  end.

(** A number that can divide zero: neither NaN nor a zero. *)
Definition divides_zero (v : Num.number) : bool :=
  match v with
  | S754_nan | S754_zero _ => false
  | _ => true
  end.

(** The four bytes of pixel [(x, y)] in a row-major RGBA buffer of a tile
    [width] pixels wide. *)
Definition rgba (buffer : list Z) (width x y : nat) : list Z :=
  take 4 (drop ((y * width + x) * 4) buffer).

(** The pixel [(x, y)] lies on the rim of a [width] x [height] tile. *)
Definition on_border (width height x y : nat) : Prop :=
  x = 0%nat \/ S x = width \/ y = 0%nat \/ S y = height.

(** Every character of [s] passes the test [p]. *)
Fixpoint string_forall (p : ascii -> bool) (s : string) : bool :=
  match s with
  | EmptyString => true
  | String c s' => p c && string_forall p s'
  end.

Definition no_slash (s : string) : bool :=
  string_forall (fun c => negb (Ascii.eqb c "/")) s.

Definition no_question (s : string) : bool :=
  string_forall (fun c => negb (Ascii.eqb c "?")) s.

(** [s] does not begin with a digit. *)
Definition no_leading_digit (s : string) : bool :=
  match s with
  | String c _ => negb (SlopeAngleSource.is_digit c)
  | EmptyString => true
  end.

(** The urls of the calls in [es] that are delegated to the host, in order. *)
Fixpoint delegated_urls (es : list RemoteProtocolHandler.event) : list string :=
  match es with
  | [] => []
  | RemoteProtocolHandler.Call url :: es' =>
      if String.prefix "https://" url then delegated_urls es'
      else url :: delegated_urls es'
  | RemoteProtocolHandler.Message _ :: es' => delegated_urls es'
  end.

(** A bench whose world is the list of observations made so far, each with
    the tag of the callback that made it, and a manager that fetches
    nothing. *)
Definition Observations : Type := list (nat * SlopeAngleSource.Timing).

Definition silent_manager {W : Type}
    : SlopeAngleSource.DemManager W HeightTile.t :=
  {| SlopeAngleSource.fetchAndParseTile :=
       fun _ _ _ _ w => (JS.Rejected (JS.Error "offline"), w) |}.

Definition tagged_recorder (tag : nat)
    : SlopeAngleSource.Timing -> JS.M Observations unit :=
  fun timing seen => (JS.Normal tt, seen ++ [(tag, timing)]).

(** [callbacks.forEach(source.onTiming)]. *)
Definition register_all {W DemTile : Type}
    (source : SlopeAngleSource.t W DemTile)
    (callbacks : list (SlopeAngleSource.Timing -> JS.M W unit))
    : SlopeAngleSource.t W DemTile :=
  foldl (SlopeAngleSource.onTiming W DemTile) source callbacks.

(** The timing that belongs to an outcome. *)
Definition timing_of {A : Type} (url : string) (outcome : JS.settled A)
    : SlopeAngleSource.Timing :=
  match outcome with
  | JS.Fulfilled _ => SlopeAngleSource.TimingFinish url
  | JS.Rejected _ => SlopeAngleSource.TimingError url
  end.

(** The payload the host posts for a protocol's result:
    [{...result, data}]. *)
Definition payload_of (result : ProtocolHandler.ProtocolResult)
    : RemoteProtocolHandler.FetchResponse :=
  {| RemoteProtocolHandler.data := ProtocolHandler.result_data result;
     RemoteProtocolHandler.expires := ProtocolHandler.result_expires result;
     RemoteProtocolHandler.cacheControl :=
       ProtocolHandler.result_cacheControl result |}.

(** The request [{id: eventId(n), payload: {url}}]. *)
Definition request_of (n : nat) (url : string) : RemoteProtocolHandler.Request :=
  {| RemoteProtocolHandler.req_id := eventId n;
     RemoteProtocolHandler.req_url := url |}.

(** A delegated url for which the host posts no answer: no protocol is
    registered for it, or the registered protocol rejects. *)
Definition unanswered (getProtocol : string -> option ProtocolHandler.Protocol)
    (url : string) : bool :=
  negb (String.prefix "https://" url) &&
  match getProtocol url with
  | Some protocol =>
      match protocol url JS.new_AbortController with
      | JS.Fulfilled _ => false
      | JS.Rejected _ => true
      end
  | None => true
  end.

(** Every pending promise still has its resolver registered. *)
Definition registered (w : RemoteProtocolHandler.Worker) : Prop :=
  forall h,
    RemoteProtocolHandler.promises w !! h = Some RemoteProtocolHandler.Pending ->
    exists k,
      RemoteProtocolHandler.callbacks w !! k
      = Some (RemoteProtocolHandler.resolve h).

(** A host protocol that answers every url with two bytes. *)
Definition two_bytes : ProtocolHandler.Protocol :=
  fun _ _ =>
    JS.Fulfilled {| ProtocolHandler.result_data := [4; 2];
                    ProtocolHandler.result_cacheControl := Some "no-cache";
                    ProtocolHandler.result_expires := None |}.

(** A host on which [dem://] urls are answered with two bytes and nothing
    else is registered. *)
Definition dem_only (url : string) : option ProtocolHandler.Protocol :=
  if String.prefix "dem://" url
  then Some two_bytes else None.

(** The answer to the request numbered [n], carrying one byte. *)
Definition one_byte (n : nat) (byte : Z) : RemoteProtocolHandler.Response :=
  {| RemoteProtocolHandler.res_id := eventId n;
     RemoteProtocolHandler.res_payload :=
       {| RemoteProtocolHandler.data := [byte];
          RemoteProtocolHandler.expires := None;
          RemoteProtocolHandler.cacheControl := None |} |}.

(** The name-value pairs of the options that are given, [maxAngle] first. *)
Definition options_params (toString : Num.number -> string)
    (options : SlopeAngleSource.SlopeAngleOptions) : list (string * string) :=
  match SlopeAngleSource.maxAngle options with
  | Some v => [("maxAngle", toString v)]
  | None => []
  end ++
  match SlopeAngleSource.pixelSize options with
  | Some v => [("pixelSize", toString v)]
  | None => []
  end.

(** A stand-in for [URLSearchParams.prototype.toString] on names and values
    that need no escaping: [name=value] joined by [&]. *)
Fixpoint plain_toString (params : list (string * string)) : string :=
  match params with
  | [] => ""
  | [(n, v)] => n +:+ "=" +:+ v
  | (n, v) :: params' => n +:+ "=" +:+ v +:+ "&" +:+ plain_toString params'
  end.

(** A stand-in for [Number.prototype.toString] on small whole numbers. *)
Definition whole_toString (v : Num.number) : string :=
  match v with
  | S754_finite false m e => pretty (Z.to_nat (Z.shiftl (Z.pos m) e))
  | _ => "0"
  end.

(** A callback that never throws. *)
Definition accepts_all (calls : list CallbackArgs) (args : CallbackArgs)
    : JS.completion unit :=
  JS.Normal tt.

(* ===================================================================== *)
(** * Properties of slope-angle-tile.ts *)
(* ===================================================================== *)

Section Loops.

Local Open Scope nat_scope.

Lemma foldl_ext_in {A B : Type} (f g : A -> B -> A) (l : list B) (a : A) :
  (forall a b, b ∈ l -> f a b = g a b) -> foldl f a l = foldl g a l.
Proof.
  revert a. induction l as [|b l IH]; intros a H; simpl; [done|].
  rewrite H by left. apply IH. intros a' b' Hb. apply H. by right.
Qed.

(** A row-major double loop is one loop over the pixel index. *)
Lemma nested_loop {St : Type} (f : St -> nat -> nat -> St) (w h : nat) (s : St) :
  foldl (fun st y => foldl (fun st x => f st x y) st (seq 0 w)) s (seq 0 h)
  = foldl (fun st p => f st (p mod w) (p / w)) s (seq 0 (h * w)).
Proof.
  induction h as [|h IH]; [done|].
  rewrite seq_S, foldl_app. simpl foldl at 1. rewrite IH.
  replace (S h * w) with (h * w + w) by lia.
  rewrite seq_app, foldl_app. simpl.
  replace (seq (h * w) w) with (Nat.add (h * w) <$> seq 0 w)
    by (rewrite fmap_add_seq; f_equal; lia).
  rewrite foldl_fmap.
  apply foldl_ext_in. intros st x Hx.
  apply elem_of_seq in Hx.
  assert (w ≠ 0) by lia.
  replace ((h * w + x) mod w) with x.
  2:{ rewrite Nat.add_comm, Nat.Div0.mod_add. by rewrite Nat.mod_small by lia. }
  replace ((h * w + x) / w) with h; [done|].
  rewrite Nat.add_comm, Nat.div_add by done. rewrite Nat.div_small by lia. done.
Qed.

Lemma pixel_index (w x y : nat) :
  x < w -> (y * w + x) mod w = x /\ (y * w + x) / w = y.
Proof.
  intros Hx. assert (w ≠ 0) by lia. split.
  - rewrite Nat.add_comm, Nat.Div0.mod_add. by apply Nat.mod_small.
  - rewrite Nat.add_comm, Nat.div_add by done. by rewrite Nat.div_small.
Qed.

Lemma pixel_index_lt (w h x y : nat) : x < w -> y < h -> y * w + x < h * w.
Proof. nia. Qed.

End Loops.

Section TileLoops.

Local Open Scope nat_scope.
Import Num SlopeAngleTile.

(** Sequential stores at [idx++] into a fresh array fill it from the left. *)
Lemma store_loop {A : Type} (g : nat -> A) (z : A) (n k : nat) :
  k <= n ->
  foldl (fun st p => let '(data, idx) := st in (<[idx := g p]> data, S idx))
        (replicate n z, 0) (seq 0 k)
  = (map g (seq 0 k) ++ replicate (n - k) z, k).
Proof.
  induction k as [|k IH]; intros Hk.
  - simpl. by rewrite Nat.sub_0_r.
  - rewrite seq_S, foldl_app, IH by lia. simpl.
    f_equal. rewrite map_app. simpl.
    replace (n - k) with (S (n - S k)) by lia. simpl.
    rewrite insert_app_r_alt by (rewrite length_map, length_seq; lia).
    rewrite length_map, length_seq, Nat.sub_diag. simpl.
    by rewrite <- app_assoc.
Qed.

Lemma writePixel_app (this : t) (maxAngle : number) (pre post : list Z)
    (x y : nat) :
  writePixel this maxAngle (pre ++ [0; 0; 0; 0]%Z ++ post, length pre) x y
  = (pre ++ fst (writePixel this maxAngle ([0; 0; 0; 0]%Z, 0) x y) ++ post,
     length pre + 4).
Proof.
  unfold writePixel. cbv zeta. f_equal; [|lia].
  generalize (ToUint8 (if isNaN (get this (Z.of_nat x) (Z.of_nat y))
                       then of_Z 0 else of_Z 255)).
  generalize (ToUint8
                (if negb (isNaN (get this (Z.of_nat x) (Z.of_nat y)))
                 then Math_round
                        (mul (Math_min
                                (div (ToNumber (get this (Z.of_nat x) (Z.of_nat y)))
                                     maxAngle)
                                (of_Z 1))
                             (of_Z 255))
                 else of_Z 0)).
  intros v a.
  do 4 rewrite (insert_app_r_alt pre) by lia.
  replace (length pre - length pre) with 0 by lia.
  replace (S (length pre) - length pre) with 1 by lia.
  replace (S (S (length pre)) - length pre) with 2 by lia.
  replace (S (S (S (length pre))) - length pre) with 3 by lia.
  reflexivity.
Qed.

Lemma length_pixelBytes (this : t) (maxAngle : number) (p : nat) :
  length (pixelBytes this maxAngle p) = 4.
Proof. reflexivity. Qed.

Lemma length_bind_pixelBytes (this : t) (maxAngle : number) (l : list nat) :
  length (l ≫= pixelBytes this maxAngle) = length l * 4.
Proof.
  induction l as [|p l IH]; [done|].
  rewrite bind_cons, length_app, length_pixelBytes, IH. simpl. lia.
Qed.

Lemma pixel_loop (this : t) (maxAngle : number) (n k : nat) :
  k <= n ->
  foldl (fun st p =>
           writePixel this maxAngle st (p mod width this) (p / width this))
        (replicate (n * 4) 0%Z, 0) (seq 0 k)
  = ((seq 0 k ≫= pixelBytes this maxAngle) ++ replicate ((n - k) * 4) 0%Z,
     k * 4).
Proof.
  induction k as [|k IH]; intros Hk.
  - simpl. by rewrite Nat.sub_0_r.
  - rewrite seq_S, foldl_snoc, IH by lia. change (0 + k) with k.
    replace ((n - k) * 4) with (4 + (n - S k) * 4) by lia.
    rewrite replicate_add.
    replace (k * 4) with (length (seq 0 k ≫= pixelBytes this maxAngle))
      by (rewrite length_bind_pixelBytes, length_seq; lia).
    change (replicate 4 0%Z) with [0; 0; 0; 0]%Z.
    rewrite writePixel_app. f_equal.
    + by rewrite bind_app, bind_singleton, <- app_assoc.
    + rewrite length_bind_pixelBytes, length_seq. lia.
Qed.

Lemma lookup_bind_pixelBytes (this : t) (maxAngle : number) (n p j : nat) :
  p < n -> j < 4 ->
  (seq 0 n ≫= pixelBytes this maxAngle) !! (p * 4 + j)
  = pixelBytes this maxAngle p !! j.
Proof.
  intros Hp Hj. induction n as [|n IH]; [lia|].
  rewrite seq_S, bind_app, bind_singleton. change (0 + n) with n.
  destruct (decide (p = n)) as [->|Hne].
  - rewrite lookup_app_r by (rewrite length_bind_pixelBytes, length_seq; lia).
    rewrite length_bind_pixelBytes, length_seq. f_equal. lia.
  - rewrite lookup_app_l by (rewrite length_bind_pixelBytes, length_seq; lia).
    apply IH. lia.
Qed.

(** [toImageBuffer] is the concatenation of the pixels' bytes, row by row. *)
Lemma toImageBuffer_bytes (this : t) (maxAngle : option number) :
  toImageBuffer this maxAngle
  = seq 0 (height this * width this)
      ≫= pixelBytes this (default (of_Z 45) maxAngle).
Proof.
  unfold toImageBuffer, TypedArray.alloc.
  rewrite (nested_loop
             (fun st x y => writePixel this (default (of_Z 45) maxAngle) st x y)).
  replace (width this * height this * 4) with (height this * width this * 4)
    by lia.
  rewrite pixel_loop by done. simpl.
  rewrite Nat.sub_diag. simpl. by rewrite app_nil_r.
Qed.

(** The array [materialize] fills. *)
Lemma materialize_get (this : t) (x y : Z) :
  get (materialize this) x y
  = TypedArray.read
      (map (fun p => fround (ToNumber (get this (Z.of_nat (p mod width this))
                                                 (Z.of_nat (p / width this)))))
           (seq 0 (height this * width this)))
      (y * Z.of_nat (width this) + x)%Z.
Proof.
  unfold materialize, TypedArray.alloc.
  set (g := fun p => fround (ToNumber (get this (Z.of_nat (p mod width this))
                                             (Z.of_nat (p / width this))))).
  match goal with
  | |- context [foldl ?f ?a (seq 0 (height this))] =>
      assert (foldl f a (seq 0 (height this))
              = (map g (seq 0 (height this * width this)),
                 height this * width this)) as ->
  end; [|done].
  etrans.
  { apply (nested_loop
             (fun (st : list number * nat) x y =>
                let '(data, idx) := st in
                (<[idx := fround (ToNumber (get this (Z.of_nat x) (Z.of_nat y)))]>
                   data, S idx))). }
  replace (width this * height this) with (height this * width this) by lia.
  etrans; [apply (store_loop g); done|].
  by rewrite Nat.sub_diag, app_nil_r.
Qed.

End TileLoops.

(** ** Rounding never makes a NaN *)

Section Rounding.

Variables prec emax : Z.

Lemma shr_1_nonneg (mrs : shr_record) :
  0 <= shr_m mrs -> 0 <= shr_m (shr_1 mrs).
Proof. destruct mrs as [[|[p|p|]|p] r s]; simpl; lia. Qed.

Lemma iter_pos_shr_1_nonneg (n : positive) (mrs : shr_record) :
  0 <= shr_m mrs -> 0 <= shr_m (SpecFloat.iter_pos shr_1 n mrs).
Proof.
  revert mrs. induction n as [n IH|n IH|]; intros mrs H; simpl.
  - apply IH, IH. by apply shr_1_nonneg.
  - by apply IH, IH.
  - by apply shr_1_nonneg.
Qed.

Lemma shr_fexp_nonneg (m e : Z) (l : location) :
  0 <= m -> 0 <= shr_m (fst (shr_fexp prec emax m e l)).
Proof.
  intros Hm. unfold shr_fexp, shr.
  assert (0 <= shr_m (shr_record_of_loc m l)) by (by destruct l as [|[]]).
  destruct (fexp prec emax (Zdigits2 m + e) - e); simpl; try done.
  by apply iter_pos_shr_1_nonneg.
Qed.

Lemma binary_round_aux_not_nan (s : bool) (m e : Z) (l : location) :
  0 <= m -> binary_round_aux prec emax s m e l <> S754_nan.
Proof.
  intros Hm. unfold binary_round_aux.
  pose proof (shr_fexp_nonneg m e l Hm) as H1.
  destruct (shr_fexp prec emax m e l) as [mrs' e']. simpl in H1.
  assert (0 <= round_nearest_even (shr_m mrs') (loc_of_shr_record mrs')) as H2.
  { unfold round_nearest_even.
    destruct (loc_of_shr_record mrs') as [|[]]; try done; [|lia].
    destruct (Z.even (shr_m mrs')); lia. }
  pose proof (shr_fexp_nonneg _ e' loc_Exact H2) as H3.
  destruct (shr_fexp prec emax _ e' loc_Exact) as [mrs'' e'']. simpl in H3.
  destruct (shr_m mrs''); [done| |lia].
  by destruct (e'' <=? emax - prec).
Qed.

Lemma binary_round_not_nan (s : bool) (m : positive) (e : Z) :
  binary_round prec emax s m e <> S754_nan.
Proof.
  unfold binary_round. destruct (shl_align m e _) as [mz ez].
  by apply binary_round_aux_not_nan.
Qed.

End Rounding.

(** A store into a [Float32Array] keeps NaN and nothing else as NaN. *)
Lemma is_nan_fround (v : Num.number) :
  Num.is_nan (Num.fround v) = Num.is_nan v.
Proof.
  destruct v as [s|s| |s m e]; try done. simpl.
  pose proof (binary_round_not_nan 24 128 s m e) as H.
  destruct (binary_round 24 128 s m e) as [s'|s'| |s' m' e']; try done.
  pose proof (binary_round_not_nan Num.prec Num.emax s' m' e') as H'.
  by destruct (binary_round Num.prec Num.emax s' m' e').
Qed.

(** ** fromHeightTile *)

Lemma in_bounds_test (width height : nat) (x y : Z) :
  (x <? 0) || (Z.of_nat width <=? x) || (y <? 0) || (Z.of_nat height <=? y)
  = false <-> in_bounds width height x y.
Proof. unfold in_bounds. rewrite !orb_false_iff. lia. Qed.

(** Outside the tile, [fromHeightTile] gives NaN without reading a sample. *)
Lemma fromHeightTile_outside (Math_atan : Num.number -> Num.number)
    (heightTile : HeightTile.t) (pixelSize : option Num.number) (x y : Z) :
  ~ in_bounds (HeightTile.width heightTile) (HeightTile.height heightTile) x y ->
  SlopeAngleTile.get
    (SlopeAngleTile.fromHeightTile Math_atan heightTile pixelSize) x y
  = Num Num.NaN.
Proof.
  intros Hout. unfold SlopeAngleTile.fromHeightTile. cbn [SlopeAngleTile.get].
  destruct ((x <? 0) || (Z.of_nat (HeightTile.width heightTile) <=? x)
            || (y <? 0) || (Z.of_nat (HeightTile.height heightTile) <=? y))
    eqn:Htest; [done|].
  apply in_bounds_test in Htest. contradiction.
Qed.

(** C1. The tile that [fromHeightTile] returns has the dimensions of the
    height tile, and at every coordinate [(x, y)]: outside
    [0, width) x [0, height) its value is NaN; inside, it is NaN when one of
    the eight samples around [(x, y)] is NaN, and otherwise it is Horn's
    estimate [atan(sqrt(dzdx^2 + dzdy^2)) * 180 / pi] in degrees. *)
Theorem fromHeightTile_horn (Math_atan : Num.number -> Num.number)
    (heightTile : HeightTile.t) (pixelSize : option Num.number) (x y : Z) :
  let tile := SlopeAngleTile.fromHeightTile Math_atan heightTile pixelSize in
  let w := HeightTile.width heightTile in
  let h := HeightTile.height heightTile in
  let p := default (Num.of_Z 30) pixelSize in
  let z1 := HeightTile.get heightTile (x - 1) (y - 1) in
  let z2 := HeightTile.get heightTile x (y - 1) in
  let z3 := HeightTile.get heightTile (x + 1) (y - 1) in
  let z4 := HeightTile.get heightTile (x - 1) y in
  let z6 := HeightTile.get heightTile (x + 1) y in
  let z7 := HeightTile.get heightTile (x - 1) (y + 1) in
  let z8 := HeightTile.get heightTile x (y + 1) in
  let z9 := HeightTile.get heightTile (x + 1) (y + 1) in
  SlopeAngleTile.width tile = w /\ SlopeAngleTile.height tile = h /\
  (~ in_bounds w h x y -> SlopeAngleTile.get tile x y = Num Num.NaN) /\
  (in_bounds w h x y ->
   (exists v, v ∈ neighborhood heightTile x y /\ Num.is_nan v = true) ->
   SlopeAngleTile.get tile x y = Num Num.NaN) /\
  (in_bounds w h x y ->
   (forall v, v ∈ neighborhood heightTile x y -> Num.is_nan v = false) ->
   SlopeAngleTile.get tile x y
   = Num (horn_degrees Math_atan (horn_dzdx z1 z3 z4 z6 z7 z9 p)
                       (horn_dzdy z1 z2 z3 z7 z8 z9 p))).
Proof.
  intros tile w h p z1 z2 z3 z4 z6 z7 z8 z9.
  split; [done|]. split; [done|].
  unfold tile, SlopeAngleTile.fromHeightTile. cbn [SlopeAngleTile.get].
  fold w h z1 z2 z3 z4 z6 z7 z8 z9.
  change [z1; z2; z3; z4; z6; z7; z8; z9] with (neighborhood heightTile x y).
  destruct ((x <? 0) || (Z.of_nat w <=? x) || (y <? 0) || (Z.of_nat h <=? y))
    eqn:Hout.
  - assert (~ in_bounds w h x y) as Hnot.
    { intros Hin. apply in_bounds_test in Hin. congruence. }
    split; [done|]. split; intros; contradiction.
  - apply in_bounds_test in Hout.
    split; [intros; contradiction|].
    destruct (existsb Num.is_nan (neighborhood heightTile x y)) eqn:Hnan.
    + split; [done|].
      apply existsb_exists in Hnan as (v & Hv & Hvnan).
      intros _ Hall. apply list_elem_of_In in Hv.
      rewrite (Hall v Hv) in Hvnan. done.
    + split; [|done].
      intros _ (v & Hv & Hvnan).
      assert (existsb Num.is_nan (neighborhood heightTile x y) = true)
        as Hex.
      { apply existsb_exists. exists v. split; [|done].
        by apply list_elem_of_In. }
      congruence.
Qed.

Lemma fromHeightTile_horn_witness :
  let tile := SlopeAngleTile.fromHeightTile atan_first_order flat_no_west None in
  SlopeAngleTile.get tile 2 0 = Num Num.NaN /\
  SlopeAngleTile.get tile 0 0 = Num Num.NaN /\
  SlopeAngleTile.get tile 1 0 = Num (S754_zero false).
Proof.
  intros tile. split; [|split].
  - destruct (fromHeightTile_horn atan_first_order flat_no_west None 2 0)
      as (_ & _ & H & _).
    apply H. unfold in_bounds. simpl. lia.
  - destruct (fromHeightTile_horn atan_first_order flat_no_west None 0 0)
      as (_ & _ & _ & H & _).
    apply H.
    + unfold in_bounds. simpl. lia.
    + exists Num.NaN. split; [|reflexivity]. left.
  - destruct (fromHeightTile_horn atan_first_order flat_no_west None 1 0)
      as (_ & _ & _ & _ & H).
    unfold tile. rewrite H.
    + reflexivity.
    + unfold in_bounds. simpl. lia.
    + intros v Hv. apply list_elem_of_In in Hv. simpl in Hv.
      repeat (destruct Hv as [<-|Hv]; [reflexivity|]). destruct Hv.
Defined.

(** ** materialize *)

(** What the accessor of a materialized tile returns at any coordinate: the
    array element at index [y * width + x], or [undefined]. *)
Lemma materialize_get_index (this : SlopeAngleTile.t) (x y : Z) :
  let w := Z.of_nat (SlopeAngleTile.width this) in
  let h := Z.of_nat (SlopeAngleTile.height this) in
  let i := y * w + x in
  SlopeAngleTile.get (SlopeAngleTile.materialize this) x y
  = if (0 <=? i) && (i <? w * h)
    then Num (Num.fround
                (ToNumber (SlopeAngleTile.get this (i mod w) (i / w))))
    else Undefined.
Proof.
  intros w h i. rewrite materialize_get. fold w i. unfold TypedArray.read.
  destruct (i <? 0) eqn:Hneg.
  { replace (0 <=? i) with false by lia. done. }
  replace (0 <=? i) with true by lia. simpl.
  rewrite list_lookup_fmap.
  destruct (i <? w * h) eqn:Hlt.
  - rewrite lookup_seq_lt by lia. simpl.
    rewrite Nat2Z.inj_mod, Nat2Z.inj_div, Z2Nat.id by lia. done.
  - rewrite lookup_seq_ge by lia. done.
Qed.

(** C4, as stated, fails: the materialized pixel is the binary32 value next
    to 0.1, not 0.1. *)
Lemma materialize_identical_counterexample :
  SlopeAngleTile.get (SlopeAngleTile.materialize tenth_tile) 0 0
  <> SlopeAngleTile.get tenth_tile 0 0.
Proof. vm_compute. discriminate. Qed.

(** C4, amended. At every in-bounds coordinate the materialized tile returns
    the lazy value rounded to the nearest 32-bit float: a NaN stays a NaN, a
    non-NaN stays a non-NaN, and the two values are identical whenever the
    lazy value is a number that a 32-bit float represents exactly. The
    dimensions are unchanged. *)
Theorem materialize_fround (this : SlopeAngleTile.t) (x y : Z) :
  in_bounds (SlopeAngleTile.width this) (SlopeAngleTile.height this) x y ->
  let lazy := SlopeAngleTile.get this x y in
  let dense := SlopeAngleTile.get (SlopeAngleTile.materialize this) x y in
  dense = Num (Num.fround (ToNumber lazy)) /\
  isNaN dense = isNaN lazy /\
  (forall v, lazy = Num v -> Num.fround v = v -> dense = lazy) /\
  SlopeAngleTile.width (SlopeAngleTile.materialize this)
  = SlopeAngleTile.width this /\
  SlopeAngleTile.height (SlopeAngleTile.materialize this)
  = SlopeAngleTile.height this.
Proof.
  intros [Hx Hy] lazy dense.
  assert (dense = Num (Num.fround (ToNumber lazy))) as Hd.
  { unfold dense, lazy. rewrite materialize_get_index. cbv zeta.
    set (w := Z.of_nat (SlopeAngleTile.width this)) in *.
    set (h := Z.of_nat (SlopeAngleTile.height this)) in *.
    replace ((0 <=? y * w + x) && (y * w + x <? w * h)) with true by nia.
    replace ((y * w + x) mod w) with x.
    2:{ rewrite Z.add_comm, Z.mod_add by lia. by rewrite Z.mod_small. }
    replace ((y * w + x) / w) with y; [done|].
    rewrite Z.add_comm, Z.div_add by lia. rewrite Z.div_small by lia. done. }
  split; [done|]. split; [|split].
  - rewrite Hd. unfold isNaN. simpl. apply is_nan_fround.
  - intros v Hv Hfix. rewrite Hd, Hv. simpl. by rewrite Hfix.
  - unfold SlopeAngleTile.materialize.
    by destruct (foldl _ _ _).
Qed.

Lemma materialize_fround_witness :
  SlopeAngleTile.get (SlopeAngleTile.materialize tenth_tile) 0 0
  = Num (S754_finite false 7205759511166976 (-56)).
Proof.
  destruct (materialize_fround tenth_tile 0 0) as (H & _).
  - unfold in_bounds. simpl. lia.
  - rewrite H. reflexivity.
Defined.

(** C8. The accessor of a materialized tile does no bounds check: at every
    coordinate it reads the dense array at index [y * width + x]
    ([undefined] when that index is outside the array). So [get(width, y)]
    is the same array cell as [get(0, y + 1)], and with [0 <= y < height - 1]
    it is the stored value of pixel [(0, y + 1)], whereas a lazy tile made by
    [fromHeightTile] is NaN there. *)
Theorem materialize_no_bounds_check (this : SlopeAngleTile.t) :
  let w := Z.of_nat (SlopeAngleTile.width this) in
  let h := Z.of_nat (SlopeAngleTile.height this) in
  let dense := SlopeAngleTile.materialize this in
  (forall x y : Z,
     let i := y * w + x in
     SlopeAngleTile.get dense x y
     = if (0 <=? i) && (i <? w * h)
       then Num (Num.fround
                   (ToNumber (SlopeAngleTile.get this (i mod w) (i / w))))
       else Undefined) /\
  (forall y : Z,
     SlopeAngleTile.get dense w y = SlopeAngleTile.get dense 0 (y + 1)) /\
  (forall y : Z,
     0 < w -> 0 <= y < h - 1 ->
     SlopeAngleTile.get dense w y
     = Num (Num.fround (ToNumber (SlopeAngleTile.get this 0 (y + 1))))) /\
  (forall (Math_atan : Num.number -> Num.number) (heightTile : HeightTile.t)
          (pixelSize : option Num.number) (y : Z),
     this = SlopeAngleTile.fromHeightTile Math_atan heightTile pixelSize ->
     0 < w -> 0 <= y < h - 1 ->
     SlopeAngleTile.get this w y = Num Num.NaN /\
     (isNaN (SlopeAngleTile.get this 0 (y + 1)) = false ->
      isNaN (SlopeAngleTile.get dense w y) = false)).
Proof.
  intros w h dense.
  assert (forall y : Z,
            0 < w -> 0 <= y < h - 1 ->
            SlopeAngleTile.get dense w y
            = Num (Num.fround (ToNumber (SlopeAngleTile.get this 0 (y + 1)))))
    as Hwrap.
  { intros y Hw Hy. unfold dense. rewrite materialize_get_index. cbv zeta.
    fold w h.
    replace ((0 <=? y * w + w) && (y * w + w <? w * h)) with true by nia.
    replace (y * w + w) with (0 + (y + 1) * w) by lia.
    rewrite Z.mod_add, Z.div_add by lia.
    rewrite Z.mod_small, Z.div_small by lia. done. }
  split; [|split; [|split]].
  - intros x y. apply materialize_get_index.
  - intros y. unfold dense. rewrite !materialize_get_index. cbv zeta.
    fold w h. by replace ((y + 1) * w + 0) with (y * w + w) by lia.
  - exact Hwrap.
  - intros Math_atan heightTile pixelSize y Hthis Hw Hy. split.
    + rewrite Hthis. apply fromHeightTile_outside.
      change (HeightTile.width heightTile)
        with (SlopeAngleTile.width
                (SlopeAngleTile.fromHeightTile Math_atan heightTile pixelSize)).
      rewrite <- Hthis. fold w. unfold in_bounds. lia.
    + intros Hnan. rewrite Hwrap by done. unfold isNaN in *. simpl.
      by rewrite is_nan_fround.
Qed.

Lemma materialize_no_bounds_check_witness :
  SlopeAngleTile.get (SlopeAngleTile.materialize ramp_tile) 2 0
  = Num (Num.of_Z 10) /\
  SlopeAngleTile.get (SlopeAngleTile.materialize ramp_tile) 2 0
  = SlopeAngleTile.get (SlopeAngleTile.materialize ramp_tile) 0 1.
Proof.
  destruct (materialize_no_bounds_check ramp_tile) as (_ & H2 & H1 & _).
  split; [|exact (H2 0)].
  etrans; [apply (H1 0); simpl; lia|reflexivity].
Defined.

(** ** toImageBuffer *)

Lemma pixelBytes_eq (this : SlopeAngleTile.t) (maxAngle : Num.number)
    (p : nat) :
  let angle :=
    SlopeAngleTile.get this (Z.of_nat (p mod SlopeAngleTile.width this))
                       (Z.of_nat (p / SlopeAngleTile.width this)) in
  pixelBytes this maxAngle p
  = [ code_gray angle maxAngle; code_gray angle maxAngle;
      code_gray angle maxAngle; if isNaN angle then 0 else 255 ].
Proof.
  intros angle. unfold pixelBytes, SlopeAngleTile.writePixel, code_gray.
  fold angle. cbn [fst]. by destruct (isNaN angle).
Qed.

(** Where the ratio is not negative the two gray levels agree. *)
Lemma code_gray_clamp (angle : value) (maxAngle : Num.number) :
  Num.ltb (Num.div (ToNumber angle) maxAngle) (Num.of_Z 0) = false ->
  code_gray angle maxAngle = spec_gray angle maxAngle.
Proof.
  unfold code_gray, spec_gray, clamp, isNaN.
  destruct (Num.is_nan (ToNumber angle)) eqn:Hnan.
  { destruct (ToNumber angle); try discriminate. reflexivity. }
  destruct (Num.div (ToNumber angle) maxAngle) as [s|[]| |[] m e];
    try reflexivity; discriminate.
Qed.

Lemma code_gray_byte (angle : value) (maxAngle : Num.number) :
  0 <= code_gray angle maxAngle < 256.
Proof.
  unfold code_gray. destruct (isNaN angle); [lia|].
  unfold Num.ToUint8. destruct (Num.Math_round _); try lia.
  by apply Z.mod_pos_bound.
Qed.

(** C2, as stated, fails: with [maxAngle = -45] the ratio is negative, the
    specification's clamp gives gray level 0, and the code stores
    [round(-56.67) = -57] as the byte 199. *)
Lemma toImageBuffer_clamp_counterexample :
  SlopeAngleTile.toImageBuffer ten_degrees (Some (Num.of_Z (-45))) !! 0%nat
  = Some 199 /\
  spec_gray (SlopeAngleTile.get ten_degrees 0 0) (Num.of_Z (-45)) = 0 /\
  SlopeAngleTile.toImageBuffer ten_degrees (Some (Num.of_Z (-45))) !! 0%nat
  <> Some (spec_gray (SlopeAngleTile.get ten_degrees 0 0) (Num.of_Z (-45))).
Proof. vm_compute. repeat split. discriminate. Qed.

(** C2, amended. [toImageBuffer(maxAngle)] returns a row-major RGBA buffer of
    exactly [width * height * 4] bytes. For the pixel [(x, y)] with angle
    [a = get(x, y)], the R, G and B bytes are all 0 when [a] is NaN and
    otherwise [round(min(a / maxAngle, 1) * 255)] converted to a byte (there
    is no lower clamp: a negative level wraps modulo 256); the A byte is 0
    when [a] is NaN and 255 otherwise. Whenever [a / maxAngle] is not
    negative, the gray level equals [round(clamp(a / maxAngle, 0, 1) * 255)]. *)
Theorem toImageBuffer_rgba (this : SlopeAngleTile.t)
    (maxAngle : option Num.number) :
  let m := default (Num.of_Z 45) maxAngle in
  let w := SlopeAngleTile.width this in
  let h := SlopeAngleTile.height this in
  let buffer := SlopeAngleTile.toImageBuffer this maxAngle in
  length buffer = (w * h * 4)%nat /\
  Forall (fun b => 0 <= b < 256) buffer /\
  forall x y : nat,
    (x < w)%nat -> (y < h)%nat ->
    let angle := SlopeAngleTile.get this (Z.of_nat x) (Z.of_nat y) in
    let i := ((y * w + x) * 4)%nat in
    buffer !! i = Some (code_gray angle m) /\
    buffer !! (i + 1)%nat = Some (code_gray angle m) /\
    buffer !! (i + 2)%nat = Some (code_gray angle m) /\
    buffer !! (i + 3)%nat = Some (if isNaN angle then 0 else 255) /\
    (Num.ltb (Num.div (ToNumber angle) m) (Num.of_Z 0) = false ->
     code_gray angle m = spec_gray angle m).
Proof.
  intros m w h buffer. unfold buffer. rewrite toImageBuffer_bytes. fold m w h.
  split; [|split].
  - rewrite length_bind_pixelBytes, length_seq. lia.
  - apply Forall_forall. intros b Hb.
    apply list_elem_of_bind in Hb as (p & Hb & _).
    rewrite pixelBytes_eq in Hb. cbv zeta in Hb.
    pose proof (code_gray_byte
                  (SlopeAngleTile.get this (Z.of_nat (p mod w)) (Z.of_nat (p / w)))
                  m) as Hbyte.
    fold w in Hb.
    repeat (apply elem_of_cons in Hb as [->|Hb]; [done|]).
    apply elem_of_cons in Hb as [->|Hb]; [|by apply elem_of_nil in Hb].
    destruct (isNaN _); lia.
  - intros x y Hx Hy. cbv zeta.
    set (angle := SlopeAngleTile.get this (Z.of_nat x) (Z.of_nat y)).
    set (i := ((y * w + x) * 4)%nat).
    destruct (pixel_index w x y Hx) as [Hmod Hdiv].
    pose proof (pixel_index_lt w h x y Hx Hy) as Hlt.
    pose proof (pixelBytes_eq this m (y * w + x)) as Hbytes.
    cbv zeta in Hbytes. fold w in Hbytes.
    rewrite Hmod, Hdiv in Hbytes. fold angle in Hbytes.
    replace i with ((y * w + x) * 4 + 0)%nat at 1 by (unfold i; lia).
    unfold i.
    rewrite !lookup_bind_pixelBytes by lia. rewrite Hbytes.
    repeat split; [done..|]. apply code_gray_clamp.
Qed.

Lemma toImageBuffer_rgba_witness :
  SlopeAngleTile.toImageBuffer ten_degrees None
  = [57; 57; 57; 255] /\
  code_gray (Num (Num.of_Z 10)) (Num.of_Z 45)
  = spec_gray (Num (Num.of_Z 10)) (Num.of_Z 45).
Proof.
  destruct (toImageBuffer_rgba ten_degrees None) as (_ & _ & H).
  destruct (H 0%nat 0%nat) as (_ & _ & _ & _ & Hgray); [simpl; lia..|].
  split; [reflexivity|]. apply Hgray. reflexivity.
Defined.

(* ===================================================================== *)
(** * Properties of slope-angle-source.ts *)
(* ===================================================================== *)

(** ** v3compat *)

(** C10. In the legacy-callback convention, when the callback throws on being
    called with a successful result, [v3compat] calls the same callback a
    second time with the thrown value as its error argument: the world that
    is left is the one after that second call. *)
Theorem v3compat_callback_called_again {W : Type}
    (v4 : SlopeAngleSource.AddProtocolAction W)
    (requestParameters : SlopeAngleSource.RequestParameters)
    (callback : SlopeAngleSource.ResponseCallbackV3 W)
    (w w0 w1 : W) (result : SlopeAngleSource.GetResourceResponse)
    (thrown : JS.error) :
  v4 requestParameters JS.new_AbortController w = (JS.Fulfilled result, w0) ->
  callback None (Some (SlopeAngleSource.data result))
           (SlopeAngleSource.cacheControl result)
           (SlopeAngleSource.expires result) w0
  = (JS.Throw thrown, w1) ->
  SlopeAngleSource.v3compat v4 requestParameters
    (SlopeAngleSource.OfCallback callback) w
  = (SlopeAngleSource.V3Cancel JS.new_AbortController,
     snd (callback (Some thrown) None None None w1)).
Proof.
  intros Hv4 Hfirst. unfold SlopeAngleSource.v3compat.
  rewrite Hv4. unfold JS.promise_then. rewrite Hfirst. simpl.
  by destruct (callback (Some thrown) None None None w1).
Qed.

Lemma v3compat_callback_called_again_witness :
  snd (SlopeAngleSource.v3compat three_bytes
         {| SlopeAngleSource.url := "slope://1/2/3" |}
         (SlopeAngleSource.OfCallback (recording_callback throws_on_data)) [])
  = [ {| arg_error := None; arg_data := Some [1; 2; 3];
         arg_cacheControl := None; arg_expires := None |};
      {| arg_error := Some (JS.Error "render failed"); arg_data := None;
         arg_cacheControl := None; arg_expires := None |} ].
Proof.
  rewrite (v3compat_callback_called_again three_bytes _
             (recording_callback throws_on_data) [] []
             [ {| arg_error := None; arg_data := Some [1; 2; 3];
                  arg_cacheControl := None; arg_expires := None |} ]
             {| SlopeAngleSource.data := [1; 2; 3];
                SlopeAngleSource.cacheControl := None;
                SlopeAngleSource.expires := None |}
             (JS.Error "render failed")); reflexivity.
Defined.

(** ** The constructor *)

Section UniquePrefix.

Local Open Scope nat_scope.

Lemma pretty_N_go_length (x : N) (s : string) :
  String.length s <= String.length (pretty_N_go x s).
Proof.
  revert s. induction (N.lt_wf_0 x) as [x _ IH]; intros s.
  assert (x = 0 ∨ 0 < x)%N as [->|Hx] by lia; [by rewrite pretty_N_go_0|].
  rewrite pretty_N_go_step by done.
  etrans; [|apply IH; by apply N.div_lt]. simpl. lia.
Qed.

Lemma pretty_nat_nonempty (n : nat) : pretty n ≠ "".
Proof.
  unfold pretty, pretty_nat, pretty, pretty_N.
  destruct (decide (N.of_nat n = 0%N)) as [|Hn]; [done|].
  rewrite pretty_N_go_step by lia. intros Hempty.
  pose proof (pretty_N_go_length (N.of_nat n `div` 10)
                (String (pretty_N_char (N.of_nat n `mod` 10)) "")) as Hlen.
  rewrite Hempty in Hlen. simpl in Hlen. lia.
Qed.

Lemma string_app_nil_r (s : string) : s +:+ "" = s.
Proof.
  induction s as [|c s IH]; [done|].
  change (String c (s +:+ "") = String c s). by f_equal.
Qed.

Lemma suffixed_inj (id : string) (i j : nat) :
  suffixed id i = suffixed id j -> i = j.
Proof. unfold suffixed. intros H. by apply (inj _), (inj pretty) in H. Qed.

Lemma suffixed_ne_id (id : string) (i : nat) : suffixed id i ≠ id.
Proof.
  unfold suffixed. intros H. rewrite <- (string_app_nil_r id) in H at 2.
  apply (inj _) in H. by apply pretty_nat_nonempty in H.
Qed.

(** What the loop returns is free, and every prefix it passed over is
    taken. *)
Lemma uniquePrefix_Some (fuel : nat) (used : gset string)
    (id protocolPrefix : string) (i : nat) (r : string) :
  SlopeAngleSource.uniquePrefix fuel used id protocolPrefix i = Some r ->
  (r ∉ used) /\
  (r = protocolPrefix \/
   exists k, i <= k /\ r = suffixed id k /\ protocolPrefix ∈ used /\
             forall j, i <= j < k -> suffixed id j ∈ used).
Proof.
  revert protocolPrefix i.
  induction fuel as [|fuel IH]; intros p i H; [done|]. simpl in H.
  case_bool_decide as Hp.
  - apply IH in H as (Hr & [->|(k & Hk & -> & Hin & Hbelow)]).
    + split; [done|]. right. exists i. repeat split; [lia|done|].
      intros j Hj. lia.
    + split; [done|]. right. exists k. repeat split; [lia|done|].
      intros j Hj. destruct (decide (j = i)) as [->|]; [done|].
      apply Hbelow. lia.
  - injection H as <-. split; [done|]. by left.
Qed.

(** A loop that runs out of fuel has found every prefix it tried taken. *)
Lemma uniquePrefix_None (fuel : nat) (used : gset string)
    (id protocolPrefix : string) (i : nat) :
  SlopeAngleSource.uniquePrefix fuel used id protocolPrefix i = None ->
  forall j, i <= j < i + (fuel - 1) -> suffixed id j ∈ used.
Proof.
  revert protocolPrefix i.
  induction fuel as [|fuel IH]; intros p i H j Hj; [lia|]. simpl in H.
  case_bool_decide as Hp; [|done].
  destruct fuel as [|fuel]; [lia|].
  destruct (decide (j = i)) as [->|Hne].
  - simpl in H. by case_bool_decide.
  - apply (IH _ _ H). lia.
Qed.

Lemma uniquePrefix_None_first (fuel : nat) (used : gset string)
    (id protocolPrefix : string) (i : nat) :
  0 < fuel ->
  SlopeAngleSource.uniquePrefix fuel used id protocolPrefix i = None ->
  protocolPrefix ∈ used.
Proof.
  destruct fuel as [|fuel]; [lia|]. intros _ H. simpl in H.
  by case_bool_decide.
Qed.

(** A set of [n] strings cannot hold the base id and [n] suffixed ones. *)
Lemma uniquePrefix_total (used : gset string) (id : string) :
  is_Some (SlopeAngleSource.uniquePrefix (S (size used)) used id id 1).
Proof.
  destruct (SlopeAngleSource.uniquePrefix (S (size used)) used id id 1)
    as [r|] eqn:H; [by eexists|].
  exfalso.
  pose proof (uniquePrefix_None_first _ _ _ _ _ (Nat.lt_0_succ _) H) as Hid.
  pose proof (uniquePrefix_None _ _ _ _ _ H) as Hall.
  set (tried := id :: (suffixed id <$> seq 1 (size used))).
  assert (NoDup tried) as Hnodup.
  { apply NoDup_cons. split.
    - intros (j & Hj & _)%list_elem_of_fmap.
      symmetry in Hj. by apply suffixed_ne_id in Hj.
    - apply NoDup_fmap_2_strong; [|apply NoDup_seq].
      intros ?? _ _. apply suffixed_inj. }
  assert (list_to_set tried ⊆ used) as Hsub.
  { intros s Hs. apply elem_of_list_to_set in Hs.
    apply elem_of_cons in Hs as [->|(j & -> & Hj)%list_elem_of_fmap]; [done|].
    apply elem_of_seq in Hj. apply Hall. simpl. lia. }
  apply subseteq_size in Hsub.
  rewrite size_list_to_set in Hsub by done.
  unfold tried in Hsub. simpl in Hsub.
  rewrite length_fmap, length_seq in Hsub. lia.
Qed.

End UniquePrefix.

Section Constructor.

Local Open Scope nat_scope.

Lemma string_length_app (s t : string) :
  String.length (s +:+ t) = String.length s + String.length t.
Proof.
  induction s as [|c s IH]; [done|].
  change (S (String.length (s +:+ t)) = S (String.length s + String.length t)).
  by rewrite IH.
Qed.

Lemma string_app_inj_r (t s1 s2 : string) : s1 +:+ t = s2 +:+ t -> s1 = s2.
Proof.
  revert s2. induction s1 as [|c s1 IH]; intros [|d s2] H; [done|..].
  - apply (f_equal String.length) in H.
    rewrite !string_length_app in H. simpl in H. lia.
  - apply (f_equal String.length) in H.
    rewrite !string_length_app in H. simpl in H. lia.
  - change (String c (s1 +:+ t) = String d (s2 +:+ t)) in H.
    injection H as -> H. f_equal. by apply IH.
Qed.

Context {W DemTile : Type}.
Implicit Types (demManager : SlopeAngleSource.DemManager W DemTile).

(** One construction: it returns, the prefix it picks was free and is now
    taken, and it is the base id or the first free suffixed one. *)
Lemma new_spec demManager (id : option string) (used : gset string) :
  exists protocolPrefix source,
    SlopeAngleSource.new W DemTile demManager id used
    = Some (source, {[ protocolPrefix ]} ∪ used) /\
    SlopeAngleSource.slopeProtocolId W DemTile source
    = protocolPrefix +:+ "-slope" /\
    (protocolPrefix ∉ used) /\
    (protocolPrefix = default "slope" id \/
     exists k, 1 <= k /\ protocolPrefix = suffixed (default "slope" id) k /\
               default "slope" id ∈ used /\
               forall j, 1 <= j < k -> suffixed (default "slope" id) j ∈ used).
Proof.
  unfold SlopeAngleSource.new.
  destruct (uniquePrefix_total used (default "slope" id)) as [p Hp].
  rewrite Hp. apply uniquePrefix_Some in Hp as [Hfree Hwhich].
  exists p. eexists. repeat split; [done|done].
Qed.

Lemma construct_all_spec demManager (ids : list (option string))
    (used : gset string) :
  exists sources used',
    construct_all demManager ids used = Some (sources, used') /\
    used ⊆ used'.
Proof.
  revert used. induction ids as [|id ids IH]; intros used; simpl.
  - by exists [], used.
  - destruct (new_spec demManager id used) as (p & source & -> & _).
    destruct (IH ({[ p ]} ∪ used)) as (sources & used' & -> & Hsub).
    exists (source :: sources), used'. split; [done|]. set_solver.
Qed.

End Constructor.

(** C7. Take two constructions with the same base id, with any number of
    other constructions between them. Both return, their [slopeProtocolId]s
    differ, and the second one is the base id followed by the first integer
    suffix [k >= 1] whose prefix was still free ([id1], ..., [id(k-1)] were
    all taken), followed by ["-slope"]. *)
Theorem new_same_id_distinct {W DemTile : Type}
    (demManager : SlopeAngleSource.DemManager W DemTile)
    (id : option string) (between : list (option string))
    (used : gset string) :
  exists first used1 others used2 second used3,
    SlopeAngleSource.new W DemTile demManager id used = Some (first, used1) /\
    construct_all demManager between used1 = Some (others, used2) /\
    SlopeAngleSource.new W DemTile demManager id used2 = Some (second, used3) /\
    SlopeAngleSource.slopeProtocolId W DemTile first
    <> SlopeAngleSource.slopeProtocolId W DemTile second /\
    exists k : nat,
      (1 <= k)%nat /\
      SlopeAngleSource.slopeProtocolId W DemTile second
      = suffixed (default "slope" id) k +:+ "-slope" /\
      (suffixed (default "slope" id) k ∉ used2) /\
      forall j : nat,
        (1 <= j < k)%nat -> suffixed (default "slope" id) j ∈ used2.
Proof.
  destruct (new_spec demManager id used)
    as (p1 & first & Hfirst & Hid1 & Hfree1 & Hwhich1).
  destruct (construct_all_spec demManager between ({[ p1 ]} ∪ used))
    as (others & used2 & Hothers & Hsub).
  destruct (new_spec demManager id used2)
    as (p2 & second & Hsecond & Hid2 & Hfree2 & Hwhich2).
  exists first, ({[ p1 ]} ∪ used), others, used2, second, ({[ p2 ]} ∪ used2).
  split; [done|]. split; [done|]. split; [done|].
  assert (default "slope" id ∈ used2) as Hbase.
  { apply Hsub. destruct Hwhich1 as [<-|(k & _ & _ & Hin & _)].
    - by apply elem_of_union_l, elem_of_singleton.
    - by apply elem_of_union_r. }
  split.
  - rewrite Hid1, Hid2. intros Heq%string_app_inj_r. apply Hfree2.
    rewrite <- Heq. by apply Hsub, elem_of_union_l, elem_of_singleton.
  - destruct Hwhich2 as [->|(k & Hk & -> & _ & Hbelow)]; [done|].
    exists k. by rewrite Hid2.
Qed.

Lemma new_same_id_distinct_witness :
  exists first used1 second used2,
    SlopeAngleSource.new unit unit
      {| SlopeAngleSource.fetchAndParseTile :=
           fun _ _ _ _ w => (JS.Rejected (JS.Error "offline"), w) |}
      None ∅ = Some (first, used1) /\
    SlopeAngleSource.new unit unit
      {| SlopeAngleSource.fetchAndParseTile :=
           fun _ _ _ _ w => (JS.Rejected (JS.Error "offline"), w) |}
      None used1 = Some (second, used2) /\
    SlopeAngleSource.slopeProtocolId unit unit first = "slope-slope" /\
    SlopeAngleSource.slopeProtocolId unit unit second = "slope1-slope".
Proof.
  destruct (new_same_id_distinct
              {| SlopeAngleSource.fetchAndParseTile :=
                   fun _ _ _ _ (w : unit) =>
                     (@JS.Rejected unit (JS.Error "offline"), w) |}
              None [] ∅)
    as (first & used1 & others & used2 & second & used3
        & H1 & Hothers & H2 & _).
  injection Hothers as <- <-.
  exists first, used1, second, used3. split; [done|]. split; [done|].
  vm_compute in H1. injection H1 as <- <-.
  vm_compute in H2. injection H2 as <-.
  split; reflexivity.
Defined.

(** ** slopeProtocolV4 *)

Section Protocol.

Import JS.

Context {W DemTile : Type}.
Variable fromRawDem : DemTile -> HeightTile.t.
Variable Math_atan : Num.number -> Num.number.
Variable parseFloat : string -> Num.number.
Variable URLSearchParams_get : string -> string -> option string.
Variable Date_now : W -> Z.

Local Abbreviation Source := (SlopeAngleSource.t W DemTile).
Local Abbreviation tryBlock :=
  (SlopeAngleSource.tryBlock W DemTile fromRawDem Math_atan parseFloat
     URLSearchParams_get Date_now).
Local Abbreviation slopeProtocolV4 :=
  (SlopeAngleSource.slopeProtocolV4 W DemTile fromRawDem Math_atan parseFloat
     URLSearchParams_get Date_now).
Local Abbreviation timingCallbacks :=
  (SlopeAngleSource.timingCallbacks W DemTile).
Local Abbreviation url := SlopeAngleSource.url.
Local Abbreviation heightTiles := (heightTiles fromRawDem).
Local Abbreviation encoded :=
  (encoded Math_atan parseFloat URLSearchParams_get).

Lemma allSettled_length {A : Type} (calls : list (W -> settled A * W)) (w : W) :
  length (fst (allSettled calls w)) = length calls.
Proof.
  revert w. induction calls as [|call calls IH]; intros w; [done|]. simpl.
  destruct (call w) as [r w']. specialize (IH w').
  destruct (allSettled calls w') as [rs w'']. simpl in *. by rewrite IH.
Qed.

(** Every call of the join is made, whatever the outcomes of the others. *)
Lemma allSettled_world {A : Type} (calls : list (W -> settled A * W)) (w : W) :
  snd (allSettled calls w) = foldl (fun w call => snd (call w)) w calls.
Proof.
  revert w. induction calls as [|call calls IH]; intros w; [done|]. simpl.
  destruct (call w) as [r w']. specialize (IH w').
  destruct (allSettled calls w') as [rs w'']. simpl in *. by rewrite IH.
Qed.

Lemma combineNeighbors_center (neighbors : list (option HeightTile.t)) :
  match neighbors !! 4%nat with
  | Some (Some mainTile) =>
      exists combined,
        Stitch.combineNeighbors neighbors = Some combined /\
        HeightTile.width combined = HeightTile.width mainTile /\
        HeightTile.height combined = HeightTile.height mainTile
  | _ => Stitch.combineNeighbors neighbors = None
  end.
Proof.
  unfold Stitch.combineNeighbors.
  destruct (neighbors !! 4%nat) as [[mainTile|]|]; [|done..].
  by eexists.
Qed.

(** The [try] block, with the nine fetches run first. *)
Lemma tryBlock_eq (this : Source) (request : SlopeAngleSource.RequestParameters)
    (abortController : AbortController) (w : W) (z x y : Num.number) :
  SlopeAngleSource.parseUrl (url request) = (z, x, y) ->
  tryBlock this request abortController w
  = let '(results, w1) :=
      allSettled (fetchSlot this abortController <$> slots z x y) w in
    match Stitch.combineNeighbors (heightTiles results) with
    | None =>
        (Throw (Error "Center tile is required but was not available"), w1)
    | Some combined =>
        (Normal (SlopeAngleSource.TimingFinish (url request),
                 encoded request combined (Date_now w1)), w1)
    end.
Proof.
  intros Hparse. unfold SlopeAngleSource.tryBlock. rewrite Hparse.
  reflexivity.
Qed.

Lemma forEach_app {A : Type} (l1 l2 : list A) (f : A -> M W unit) (w : W) :
  forEach (l1 ++ l2) f w
  = match forEach l1 f w with
    | (Normal _, w') => forEach l2 f w'
    | (Throw e, w') => (Throw e, w')
    end.
Proof.
  revert w. induction l1 as [|a l1 IH]; intros w; [done|].
  simpl. unfold bind. destruct (f a w) as [[[]|e] w']; [apply IH|done].
Qed.

Lemma slopeProtocolV4_eq (this : Source)
    (request : SlopeAngleSource.RequestParameters)
    (abortController : AbortController) (w : W) :
  slopeProtocolV4 this request abortController w
  = let '(c, w1) := tryBlock this request abortController w in
    match forEach (timingCallbacks this)
                  (fun cb => cb (fst (underlying request c))) w1 with
    | (Normal _, w2) => (snd (underlying request c), w2)
    | (Throw e, w2) => (Rejected e, w2)
    end.
Proof.
  unfold SlopeAngleSource.slopeProtocolV4.
  destruct (tryBlock this request abortController w) as [[[timing r]|e] w1];
    reflexivity.
Qed.

(** C3, amended. The nine fetches are all issued, whatever their outcomes:
    the join has nine results and the world after it is the world after all
    nine calls. When the center slot (slot 4) is rejected the request is
    rejected with the fixed error "Center tile is required but was not
    available" (the reason of the center's rejection is dropped with the
    other results). When the center slot is fulfilled, each rejected
    neighbor slot is an absent grid and the request is fulfilled with the
    encoded buffer. Both hold for a request whose timing callbacks return
    normally. *)
Theorem slopeProtocolV4_tolerant_join (this : Source)
    (request : SlopeAngleSource.RequestParameters)
    (abortController : AbortController) (w w1 : W) (z x y : Num.number)
    (results : list (settled DemTile)) :
  SlopeAngleSource.parseUrl (url request) = (z, x, y) ->
  allSettled (fetchSlot this abortController <$> slots z x y) w
  = (results, w1) ->
  length results = 9%nat /\
  w1 = foldl (fun w slot => snd (fetchSlot this abortController slot w)) w
             (slots z x y) /\
  (forall (reason : error) (w2 : W),
     results !! 4%nat = Some (Rejected reason) ->
     forEach (timingCallbacks this)
             (fun cb => cb (SlopeAngleSource.TimingError (url request))) w1
     = (Normal tt, w2) ->
     slopeProtocolV4 this request abortController w
     = (Rejected (Error "Center tile is required but was not available"),
        w2)) /\
  (forall (center : DemTile) (w2 : W),
     results !! 4%nat = Some (Fulfilled center) ->
     forEach (timingCallbacks this)
             (fun cb => cb (SlopeAngleSource.TimingFinish (url request))) w1
     = (Normal tt, w2) ->
     exists combined,
       Stitch.combineNeighbors (heightTiles results) = Some combined /\
       slopeProtocolV4 this request abortController w
       = (Fulfilled (encoded request combined (Date_now w1)), w2)).
Proof.
  intros Hparse Hjoin.
  pose proof (allSettled_length
                (fetchSlot this abortController <$> slots z x y) w) as Hlen.
  pose proof (allSettled_world
                (fetchSlot this abortController <$> slots z x y) w) as Hworld.
  rewrite Hjoin in Hlen, Hworld. cbn [fst snd] in Hlen, Hworld.
  split; [done|]. split.
  { rewrite Hworld. apply foldl_fmap. }
  pose proof (combineNeighbors_center (heightTiles results)) as Hcenter.
  unfold heightTiles in Hcenter at 1. rewrite list_lookup_fmap in Hcenter.
  split.
  - intros reason w2 Hslot Hcallbacks. rewrite Hslot in Hcenter.
    simpl in Hcenter.
    rewrite slopeProtocolV4_eq, (tryBlock_eq _ _ _ _ z x y Hparse), Hjoin.
    rewrite Hcenter. simpl. by rewrite Hcallbacks.
  - intros center w2 Hslot Hcallbacks. rewrite Hslot in Hcenter.
    simpl in Hcenter. destruct Hcenter as (combined & Hcombined & _).
    exists combined. split; [done|].
    rewrite slopeProtocolV4_eq, (tryBlock_eq _ _ _ _ z x y Hparse), Hjoin.
    rewrite Hcombined. simpl. by rewrite Hcallbacks.
Qed.

(** C6, amended. When every timing callback returns normally, the outcome
    of the request (the buffer with its metadata, or the error) reaches the
    caller unchanged. When a timing callback throws, the request is rejected
    with the value that callback threw, in place of its own outcome, and the
    callbacks registered after it are not called. *)
Theorem slopeProtocolV4_timing_callbacks (this : Source)
    (request : SlopeAngleSource.RequestParameters)
    (abortController : AbortController) (w w1 : W)
    (c : completion (SlopeAngleSource.Timing
                     * SlopeAngleSource.GetResourceResponse)) :
  tryBlock this request abortController w = (c, w1) ->
  let timing := fst (underlying request c) in
  let outcome := snd (underlying request c) in
  (forall w2 : W,
     forEach (timingCallbacks this) (fun cb => cb timing) w1 = (Normal tt, w2) ->
     slopeProtocolV4 this request abortController w = (outcome, w2)) /\
  (forall (before after : list (SlopeAngleSource.Timing -> M W unit))
          (cb : SlopeAngleSource.Timing -> M W unit)
          (thrown : error) (w2 w3 : W),
     timingCallbacks this = before ++ cb :: after ->
     forEach before (fun cb => cb timing) w1 = (Normal tt, w2) ->
     cb timing w2 = (Throw thrown, w3) ->
     slopeProtocolV4 this request abortController w = (Rejected thrown, w3)).
Proof.
  intros Htry timing outcome. rewrite slopeProtocolV4_eq, Htry.
  fold timing outcome. split.
  - intros w2 Hcallbacks. by rewrite Hcallbacks.
  - intros before after cb thrown w2 w3 Hlist Hbefore Hcb.
    rewrite Hlist, forEach_app, Hbefore. simpl. unfold bind.
    by rewrite Hcb.
Qed.

End Protocol.

(** C3, as stated, fails in two points. When the center fetch is rejected
    with "offline", the request is rejected, but not with that error. And
    when only the eight neighbors are rejected, a request with a throwing
    timing callback returns no buffer. *)
Lemma slopeProtocolV4_center_error_counterexample :
  fst (SlopeAngleSource.fetchAndParseTile Log HeightTile.t
         (recording_manager offline) (Num.of_Z 5) (Num.of_Z 10) (Num.of_Z 10)
         JS.new_AbortController [])
  = JS.Rejected (JS.Error "offline") /\
  fst (bench_protocol offline [])
  = JS.Rejected (JS.Error "Center tile is required but was not available") /\
  fst (bench_protocol offline []) <> JS.Rejected (JS.Error "offline") /\
  fst (SlopeAngleSource.fetchAndParseTile Log HeightTile.t
         (recording_manager center_only) (Num.of_Z 5) (Num.of_Z 10)
         (Num.of_Z 10) JS.new_AbortController [])
  = JS.Fulfilled flat /\
  fst (bench_protocol center_only [failing_observer])
  = JS.Rejected (JS.Error "observer failed").
Proof. vm_compute. repeat split. discriminate. Qed.

Lemma slopeProtocolV4_tolerant_join_witness :
  bench_protocol center_only []
  = (JS.Fulfilled
       {| SlopeAngleSource.data := replicate 16 0;
          SlopeAngleSource.cacheControl := Some "public, max-age=3600";
          SlopeAngleSource.expires := Some 3600000 |},
     slots (Num.of_Z 5) (Num.of_Z 10) (Num.of_Z 10)) /\
  bench_protocol offline []
  = (JS.Rejected (JS.Error "Center tile is required but was not available"),
     slots (Num.of_Z 5) (Num.of_Z 10) (Num.of_Z 10)).
Proof.
  split.
  - destruct (slopeProtocolV4_tolerant_join (fun dem => dem) atan_first_order
                parseFloat_digits (fun _ _ => None) (fun _ => 0)
                (bench_source center_only [])
                {| SlopeAngleSource.url := "slope-slope://5/10/10" |}
                JS.new_AbortController []
                (slots (Num.of_Z 5) (Num.of_Z 10) (Num.of_Z 10))
                (Num.of_Z 5) (Num.of_Z 10) (Num.of_Z 10)
                ((fun slot => center_only slot.1.1 slot.1.2 slot.2)
                   <$> slots (Num.of_Z 5) (Num.of_Z 10) (Num.of_Z 10))
                eq_refl)
      as (_ & _ & _ & H).
    + vm_compute. reflexivity.
    + destruct (H flat (slots (Num.of_Z 5) (Num.of_Z 10) (Num.of_Z 10)))
        as (combined & Hcombined & Hresult); [reflexivity..|].
      unfold bench_protocol. rewrite Hresult.
      vm_compute in Hcombined. injection Hcombined as <-.
      vm_compute. reflexivity.
  - vm_compute. reflexivity.
Defined.

(** C6, as stated, fails: the request below succeeds without callbacks, and
    with a throwing callback registered it is rejected with the value the
    callback threw. *)
Lemma slopeProtocolV4_timing_counterexample :
  fst (bench_protocol center_only [])
  = JS.Fulfilled
      {| SlopeAngleSource.data := replicate 16 0;
         SlopeAngleSource.cacheControl := Some "public, max-age=3600";
         SlopeAngleSource.expires := Some 3600000 |} /\
  fst (bench_protocol center_only [failing_observer])
  = JS.Rejected (JS.Error "observer failed") /\
  fst (bench_protocol center_only [failing_observer])
  <> fst (bench_protocol center_only []).
Proof. vm_compute. repeat split. discriminate. Qed.

Lemma slopeProtocolV4_timing_callbacks_witness :
  fst (bench_protocol offline [quiet_observer])
  = JS.Rejected (JS.Error "Center tile is required but was not available") /\
  fst (bench_protocol offline [quiet_observer; failing_observer; quiet_observer])
  = JS.Rejected (JS.Error "observer failed").
Proof.
  split.
  - destruct (slopeProtocolV4_timing_callbacks (fun dem => dem)
                atan_first_order parseFloat_digits (fun _ _ => None)
                (fun _ => 0) (bench_source offline [quiet_observer])
                {| SlopeAngleSource.url := "slope-slope://5/10/10" |}
                JS.new_AbortController []
                (slots (Num.of_Z 5) (Num.of_Z 10) (Num.of_Z 10))
                (JS.Throw (JS.Error "Center tile is required but was not available"))
                eq_refl) as [H _].
    unfold bench_protocol.
    by rewrite (H (slots (Num.of_Z 5) (Num.of_Z 10) (Num.of_Z 10)) eq_refl).
  - destruct (slopeProtocolV4_timing_callbacks (fun dem => dem)
                atan_first_order parseFloat_digits (fun _ _ => None)
                (fun _ => 0)
                (bench_source offline
                   [quiet_observer; failing_observer; quiet_observer])
                {| SlopeAngleSource.url := "slope-slope://5/10/10" |}
                JS.new_AbortController []
                (slots (Num.of_Z 5) (Num.of_Z 10) (Num.of_Z 10))
                (JS.Throw (JS.Error "Center tile is required but was not available"))
                eq_refl) as [_ H].
    unfold bench_protocol.
    by rewrite (H [quiet_observer] [quiet_observer] failing_observer
                  (JS.Error "observer failed")
                  (slots (Num.of_Z 5) (Num.of_Z 10) (Num.of_Z 10))
                  (slots (Num.of_Z 5) (Num.of_Z 10) (Num.of_Z 10))
                  eq_refl eq_refl eq_refl).
Defined.

(* ===================================================================== *)
(** * Properties of the RPC bridge *)
(* ===================================================================== *)

Section Bridge.

Import JS RemoteProtocolHandler.
Local Open Scope nat_scope.

Variable fetch : string -> AbortController -> settled HttpResponse.

Lemma eventId_inj (n m : nat) : eventId n = eventId m -> n = m.
Proof. unfold eventId. intros H. by apply (inj _), (inj pretty) in H. Qed.

Lemma wf_init : wf init.
Proof.
  split; simpl; try done.
  - apply NoDup_nil_2.
  - intros h Hh. by apply elem_of_nil in Hh.
Qed.

Lemma getData_direct (url : string) (ac : AbortController) (w : Worker) :
  String.prefix "https://" url = true -> snd (getData fetch url ac w) = w.
Proof. intros H. unfold getData. by rewrite H. Qed.

Lemma getData_delegated (url : string) (ac : AbortController) (w : Worker) :
  String.prefix "https://" url = false ->
  getData fetch url ac w
  = (Delegated (length (promises w)),
     {| id := S (id w);
        callbacks := <[eventId (id w) := resolve (length (promises w))]>
                       (callbacks w);
        promises := promises w ++ [Pending];
        posted := posted w ++ [{| req_id := eventId (id w); req_url := url |}];
        invoked := invoked w |}).
Proof. intros H. unfold getData. by rewrite H. Qed.

(** An id that the counter has not reached is not in use. *)
Lemma wf_fresh (w : Worker) (n : nat) :
  wf w -> id w <= n ->
  callbacks w !! eventId n = None /\ eventId n ∉ req_id <$> posted w.
Proof.
  intros Hwf Hn. split.
  - destruct (callbacks w !! eventId n) as [[h]|] eqn:Hk; [|done].
    apply (wf_callbacks w Hwf) in Hk as (m & Hm & Heq & _).
    apply eventId_inj in Heq. lia.
  - rewrite (wf_posted w Hwf). intros (m & Heq & Hm)%list_elem_of_fmap.
    apply eventId_inj in Heq. apply elem_of_seq in Hm. lia.
Qed.

Lemma wf_getData (url : string) (ac : AbortController) (w : Worker) :
  wf w -> wf (snd (getData fetch url ac w)).
Proof.
  intros Hwf. destruct (String.prefix "https://" url) eqn:Hurl.
  { by rewrite getData_direct. }
  rewrite getData_delegated by done. simpl.
  destruct (wf_fresh w (id w) Hwf) as [Hfree _]; [done|].
  split; cbn [id callbacks promises posted invoked].
  - intros k h Hk. apply lookup_insert_Some in Hk as [[<- [= <-]]|[Hne Hk]].
    + exists (id w). split; [lia|]. split; [done|]. split.
      * rewrite lookup_app_r by done. by rewrite Nat.sub_diag.
      * intros Hin. apply (wf_invoked_known w Hwf) in Hin. lia.
    + apply (wf_callbacks w Hwf) in Hk as (n & Hn & -> & Hp & Hinv).
      exists n. split; [lia|]. split; [done|]. split; [|done].
      by apply lookup_app_l_Some.
  - intros k1 k2 r H1 H2.
    apply lookup_insert_Some in H1 as [[<- <-]|[Hne1 H1]];
      apply lookup_insert_Some in H2 as [[<- Heq]|[Hne2 H2]]; try done.
    + apply (wf_callbacks w Hwf) in H2 as (_ & _ & _ & Hp & _).
      apply lookup_lt_Some in Hp. lia.
    + subst r.
      apply (wf_callbacks w Hwf) in H1 as (_ & _ & _ & Hp & _).
      apply lookup_lt_Some in Hp. lia.
    + by apply (wf_resolvers w Hwf k1 k2 r).
  - rewrite fmap_app, seq_S, fmap_app, (wf_posted w Hwf). done.
  - apply (wf_invoked w Hwf).
  - intros h Hh. apply (wf_invoked_known w Hwf) in Hh.
    rewrite length_app. simpl. lia.
  - intros h e Hh. apply lookup_app_Some in Hh as [Hh|[_ Hh]].
    + by apply (wf_not_rejected w Hwf) in Hh.
    + by destruct (h - length (promises w)) as [|[|?]].
Qed.

Lemma onmessage_miss (m : Response) (w : Worker) :
  callbacks w !! res_id m = None -> snd (onmessage m w) = w.
Proof.
  intros H. unfold onmessage. rewrite H.
  destruct (default (Normal tt) (Object_prototype (res_id m))); [|done].
  cbn [snd]. rewrite delete_id by done. by destruct w.
Qed.

(** Unless the call of an inherited member throws, a message without a
    pending resolver is passed over without a trace. *)
Lemma onmessage_ignored (m : Response) (w : Worker) :
  callbacks w !! res_id m = None ->
  Object_prototype (res_id m) <> Some (Throw TypeError) ->
  onmessage m w = (Normal tt, w).
Proof.
  intros H Hproto. unfold onmessage. rewrite H.
  assert (default (Normal tt) (Object_prototype (res_id m)) = Normal tt) as ->.
  { unfold Object_prototype in *.
    destruct (bool_decide (res_id m ∈ _)); [done|].
    by destruct (bool_decide (res_id m ∈ _)). }
  rewrite delete_id by done. by destruct w.
Qed.

Lemma onmessage_hit (m : Response) (w : Worker) (r : Resolver) :
  callbacks w !! res_id m = Some r ->
  snd (onmessage m w)
  = {| id := id w;
       callbacks := delete (res_id m) (callbacks w);
       promises := settlePromise r (res_payload m) (promises w);
       posted := posted w;
       invoked := invoked w ++ [(r, res_payload m)] |}.
Proof. intros H. unfold onmessage. by rewrite H. Qed.

Lemma settlePromise_pending (h : nat) (v : FetchResponse)
    (ps : list PromiseState) :
  ps !! h = Some Pending ->
  settlePromise (resolve h) v ps = <[h := FulfilledWith v]> ps.
Proof. intros H. unfold settlePromise. by rewrite H. Qed.

Lemma wf_onmessage (m : Response) (w : Worker) :
  wf w -> wf (snd (onmessage m w)).
Proof.
  intros Hwf. destruct (callbacks w !! res_id m) as [[h]|] eqn:Hm.
  2:{ by rewrite onmessage_miss. }
  rewrite (onmessage_hit m w (resolve h)) by done.
  destruct (wf_callbacks w Hwf _ _ Hm) as (n & Hn & Hk & Hp & Hinv).
  rewrite settlePromise_pending by done.
  split; cbn [id callbacks promises posted invoked].
  - intros k h' Hk'. apply lookup_delete_Some in Hk' as [Hne Hk'].
    assert (h' ≠ h) as Hh.
    { intros ->. by apply Hne, (wf_resolvers w Hwf _ _ _ Hm Hk'). }
    apply (wf_callbacks w Hwf) in Hk' as (n' & Hn' & -> & Hp' & Hinv').
    exists n'. split; [done|]. split; [done|]. split.
    + by rewrite list_lookup_insert_ne.
    + rewrite fmap_app. simpl. intros Hin.
      apply elem_of_app in Hin as [Hin|Hin]; [done|].
      apply list_elem_of_singleton in Hin. by injection Hin.
  - intros k1 k2 r H1 H2.
    apply lookup_delete_Some in H1 as [_ H1].
    apply lookup_delete_Some in H2 as [_ H2].
    by apply (wf_resolvers w Hwf k1 k2 r).
  - apply (wf_posted w Hwf).
  - rewrite fmap_app. simpl. apply NoDup_app. split; [apply (wf_invoked w Hwf)|].
    split; [|apply NoDup_singleton].
    intros r Hr Hr'. apply list_elem_of_singleton in Hr'. by subst r.
  - intros h' Hh'. rewrite length_insert. rewrite fmap_app in Hh'.
    apply elem_of_app in Hh' as [Hh'|Hh'].
    + by apply (wf_invoked_known w Hwf).
    + simpl in Hh'. apply list_elem_of_singleton in Hh'.
      injection Hh' as ->. by apply lookup_lt_Some in Hp.
  - intros h' e Hh'. apply list_lookup_insert_Some in Hh' as [(_ & ? & _)|[_ Hh']].
    + done.
    + by apply (wf_not_rejected w Hwf) in Hh'.
Qed.

Lemma wf_step (w : Worker) (e : event) : wf w -> wf (step fetch w e).
Proof. destruct e; [apply wf_getData|apply wf_onmessage]. Qed.

Lemma wf_run (w : Worker) (es : list event) : wf w -> wf (run fetch w es).
Proof.
  revert w. induction es as [|e es IH]; intros w Hwf; [done|].
  apply IH. by apply wf_step.
Qed.

Lemma run_app (w : Worker) (es1 es2 : list event) :
  run fetch w (es1 ++ es2) = run fetch (run fetch w es1) es2.
Proof. apply foldl_app. Qed.

Lemma id_step (w : Worker) (e : event) : id w <= id (step fetch w e).
Proof.
  destruct e as [url|m]; simpl.
  - destruct (String.prefix "https://" url) eqn:Hurl.
    + by rewrite getData_direct.
    + rewrite getData_delegated by done. simpl. lia.
  - destruct (callbacks w !! res_id m) as [r|] eqn:Hm.
    + by rewrite (onmessage_hit m w r).
    + by rewrite onmessage_miss.
Qed.

Lemma id_run (w : Worker) (es : list event) : id w <= id (run fetch w es).
Proof.
  revert w. induction es as [|e es IH]; intros w; [done|].
  etrans; [apply (id_step w e)|apply IH].
Qed.

Lemma first_response_app (k : string) (es1 es2 : list event) :
  first_response k es1 = None ->
  first_response k (es1 ++ es2) = first_response k es2.
Proof.
  induction es1 as [|[url|m] es1 IH]; simpl; [done..|].
  by destruct (decide (res_id m = k)).
Qed.

(** A fulfilled promise stays as it is. *)
Lemma fulfilled_step (w : Worker) (e : event) (h : nat) (v : FetchResponse) :
  promises w !! h = Some (FulfilledWith v) ->
  promises (step fetch w e) !! h = Some (FulfilledWith v).
Proof.
  intros Hh. destruct e as [url|m]; cbn [step].
  - destruct (String.prefix "https://" url) eqn:Hurl.
    + by rewrite getData_direct.
    + rewrite getData_delegated by done. simpl. by apply lookup_app_l_Some.
  - destruct (callbacks w !! res_id m) as [[h']|] eqn:Hm.
    2:{ by rewrite onmessage_miss. }
    rewrite (onmessage_hit m w (resolve h')) by done. simpl.
    destruct (promises w !! h') as [[| |]|] eqn:Hh'; try done.
    rewrite list_lookup_insert_ne; [done|]. intros ->. congruence.
Qed.

Lemma fulfilled_run (w : Worker) (es : list event) (h : nat)
    (v : FetchResponse) :
  promises w !! h = Some (FulfilledWith v) ->
  promises (run fetch w es) !! h = Some (FulfilledWith v).
Proof.
  revert w. induction es as [|e es IH]; intros w Hh; [done|].
  apply IH. by apply fulfilled_step.
Qed.

(** A pending promise is settled by the first message that bears its id, and
    by nothing else. *)
Lemma pending_run (w : Worker) (k : string) (h : nat) (es : list event) :
  wf w -> callbacks w !! k = Some (resolve h) ->
  promises (run fetch w es) !! h
  = Some match first_response k es with
         | Some v => FulfilledWith v
         | None => Pending
         end.
Proof.
  revert w. induction es as [|e es IH]; intros w Hwf Hk.
  { simpl. by destruct (wf_callbacks w Hwf _ _ Hk) as (_ & _ & _ & Hp & _). }
  pose proof (wf_step w e Hwf) as Hwf'.
  destruct (wf_callbacks w Hwf _ _ Hk) as (n & Hn & -> & Hp & _).
  change (run fetch w (e :: es)) with (run fetch (step fetch w e) es).
  destruct e as [url|m]; cbn [step first_response] in *.
  - apply IH; [done|].
    destruct (String.prefix "https://" url) eqn:Hurl.
    + by rewrite getData_direct.
    + rewrite getData_delegated by done. simpl.
      rewrite lookup_insert_ne; [done|].
      intros Heq%eventId_inj. lia.
  - destruct (decide (res_id m = eventId n)) as [Hid|Hid].
    + apply fulfilled_run. rewrite <- Hid in Hk.
      rewrite (onmessage_hit m w (resolve h)) by done. cbn [promises].
      rewrite settlePromise_pending by done.
      apply list_lookup_insert_eq. by apply lookup_lt_Some in Hp.
    + apply IH; [done|].
      destruct (callbacks w !! res_id m) as [r|] eqn:Hm.
      * rewrite (onmessage_hit m w r) by done. simpl.
        by rewrite lookup_delete_ne.
      * by rewrite onmessage_miss.
Qed.

(** ** The responding side *)

Lemma answer_ids (getProtocol : string -> option ProtocolHandler.Protocol)
    (r : Request) (m : Response) :
  m ∈ ProtocolHandler.answer getProtocol r -> res_id m = req_id r.
Proof.
  unfold ProtocolHandler.answer, ProtocolHandler.listener. simpl.
  destruct (negb (String.prefix idPrefix (req_id r)));
    [by intros ?%elem_of_nil|].
  destruct (getProtocol (req_url r)) as [protocol|];
    [|by intros ?%elem_of_nil].
  destruct (protocol (req_url r) new_AbortController);
    [|by intros ?%elem_of_nil].
  simpl. by intros ->%list_elem_of_singleton.
Qed.

(** Whenever the listener ends in an error it has posted nothing. *)
Lemma listener_no_error_reply
    (getProtocol : string -> option ProtocolHandler.Protocol)
    (e_data : option ProtocolHandler.MessageData) (e : error) :
  fst (ProtocolHandler.listener getProtocol e_data) = Rejected e ->
  snd (ProtocolHandler.listener getProtocol e_data) = [].
Proof.
  unfold ProtocolHandler.listener.
  destruct e_data as [[[id|] url]|]; simpl; try done.
  destruct (negb (String.prefix idPrefix id)); [done|].
  destruct (getProtocol url) as [protocol|]; [|done].
  by destruct (protocol url new_AbortController).
Qed.

(** A failing handler posts nothing to the worker. *)
Lemma answer_fails (getProtocol : string -> option ProtocolHandler.Protocol)
    (r : Request) :
  host_fails getProtocol (req_url r) ->
  ProtocolHandler.answer getProtocol r = [].
Proof.
  unfold ProtocolHandler.answer, ProtocolHandler.listener. simpl.
  destruct (negb (String.prefix idPrefix (req_id r))); [done|].
  intros [->|(protocol & e & -> & ->)]; done.
Qed.

Lemma first_response_messages (k : string) (ms : list Response) :
  (forall m, m ∈ ms -> res_id m ≠ k) ->
  first_response k (Message <$> ms) = None.
Proof.
  induction ms as [|m ms IH]; intros H; [done|]. simpl.
  destruct (decide (res_id m = k)) as [Heq|_].
  - exfalso. apply (H m); [left|done].
  - apply IH. intros m' Hm'. apply H. by right.
Qed.

(** A round trip is a run of the worker in which no message bears an id
    issued before it. *)
Lemma request_as_run (getProtocol : string -> option ProtocolHandler.Protocol)
    (url : string) (w : Worker) :
  exists es,
    snd (ProtocolHandler.request getProtocol fetch url w) = run fetch w es /\
    forall n, n < id w -> first_response (eventId n) es = None.
Proof.
  unfold ProtocolHandler.request.
  destruct (String.prefix "https://" url) eqn:Hurl.
  - exists []. split; [|done].
    pose proof (getData_direct url new_AbortController w Hurl) as Hw.
    destruct (getData fetch url new_AbortController w) as [p w'].
    simpl in Hw. subst w'. by rewrite drop_all.
  - rewrite getData_delegated by done. cbn [posted].
    rewrite drop_app_length, bind_singleton.
    set (r := {| req_id := eventId (id w); req_url := url |}).
    exists (Call url :: (Message <$> ProtocolHandler.answer getProtocol r)).
    split.
    + unfold run. cbn [foldl step snd]. rewrite getData_delegated by done.
      cbn [snd]. by rewrite foldl_fmap.
    + intros n Hn. cbn [first_response]. apply first_response_messages.
      intros m Hm%answer_ids Heq. rewrite Hm in Heq. simpl in Heq.
      apply eventId_inj in Heq. lia.
Qed.

Lemma requests_as_run (getProtocol : string -> option ProtocolHandler.Protocol)
    (urls : list string) (w : Worker) :
  exists es,
    ProtocolHandler.requests getProtocol fetch w urls = run fetch w es /\
    forall n, n < id w -> first_response (eventId n) es = None.
Proof.
  revert w. induction urls as [|url urls IH]; intros w.
  { by exists []. }
  destruct (request_as_run getProtocol url w) as (es1 & Hrun1 & Hnone1).
  destruct (IH (snd (ProtocolHandler.request getProtocol fetch url w)))
    as (es2 & Hrun2 & Hnone2).
  exists (es1 ++ es2). split.
  - rewrite run_app, <- Hrun1. exact Hrun2.
  - intros n Hn. rewrite first_response_app by auto.
    apply Hnone2. rewrite Hrun1.
    eapply Nat.lt_le_trans; [done|apply id_run].
Qed.

(** The ids in use are made by [getData]; none of them is a name that
    [Object.prototype] knows. *)
Lemma wf_no_inherited (w : Worker) (k : string) :
  wf w -> is_Some (Object_prototype k) -> callbacks w !! k = None.
Proof.
  intros Hwf Hproto.
  destruct (callbacks w !! k) as [[h]|] eqn:Hk; [|done].
  destruct (wf_callbacks w Hwf _ _ Hk) as (n & _ & -> & _).
  by destruct Hproto as [c Hc].
Qed.


(** C9. For a url that does not start with "https://", in every state the
    worker can reach, [getData] returns a promise that is never rejected:
    after any further calls and messages it is fulfilled with the payload of
    the first message bearing its correlation id, and pending when there was
    none. The host listener posts nothing whenever it ends in an error; so
    when the host-side handler fails the host posts no message, and with the
    host as the only sender the promise is pending after any number of
    further requests. *)
Theorem getData_never_rejects (es : list event) (url : string) :
  String.prefix "https://" url = false ->
  let w := run fetch init es in
  let k := eventId (id w) in
  exists (h : nat) (w' : Worker),
    getData fetch url new_AbortController w = (Delegated h, w') /\
    (forall es' : list event,
       (forall e, promises (run fetch w' es') !! h <> Some (RejectedWith e)) /\
       promises (run fetch w' es') !! h
       = Some match first_response k es' with
              | Some v => FulfilledWith v
              | None => Pending
              end) /\
    (forall getProtocol : string -> option ProtocolHandler.Protocol,
       (forall (e_data : option ProtocolHandler.MessageData) (e : error),
          fst (ProtocolHandler.listener getProtocol e_data) = Rejected e ->
          snd (ProtocolHandler.listener getProtocol e_data) = []) /\
       (host_fails getProtocol url ->
        ProtocolHandler.answer getProtocol {| req_id := k; req_url := url |}
        = [] /\
        forall urls : list string,
         promises
           (ProtocolHandler.requests getProtocol fetch
              (snd (ProtocolHandler.request getProtocol fetch url w)) urls)
           !! h
         = Some Pending)).
Proof.
  intros Hurl w k. assert (wf w) as Hwf by apply wf_run, wf_init.
  set (w' := snd (getData fetch url new_AbortController w)).
  assert (wf w') as Hwf' by apply wf_getData, Hwf.
  assert (callbacks w' !! k = Some (resolve (length (promises w)))) as Hk.
  { unfold w'. rewrite getData_delegated by done. apply lookup_insert_eq. }
  assert (id w' = S (id w)) as Hid.
  { unfold w'. by rewrite getData_delegated. }
  exists (length (promises w)), w'. split.
  { unfold w'. by rewrite getData_delegated. }
  split.
  - intros es'. split.
    + intros e. apply (wf_not_rejected _ (wf_run w' es' Hwf')).
    + by apply pending_run.
  - intros getProtocol. split; [apply listener_no_error_reply|].
    intros Hfails.
    assert (ProtocolHandler.answer getProtocol {| req_id := k; req_url := url |}
            = []) as Hanswer by by apply answer_fails.
    split; [done|]. intros urls.
    assert (snd (ProtocolHandler.request getProtocol fetch url w) = w') as ->.
    { unfold ProtocolHandler.request, w'.
      rewrite getData_delegated by done. cbn [posted snd].
      rewrite drop_app_length, bind_singleton. fold k. by rewrite Hanswer. }
    destruct (requests_as_run getProtocol urls w') as (es' & -> & Hnone).
    rewrite (pending_run w' k) by done. unfold k.
    rewrite (Hnone (id w)) by lia. done.
Qed.

End Bridge.

Lemma getData_never_rejects_witness :
  exists w',
    RemoteProtocolHandler.getData no_network "dem://1/2/3"
      JS.new_AbortController RemoteProtocolHandler.init
    = (RemoteProtocolHandler.Delegated 0, w') /\
    RemoteProtocolHandler.promises
      (ProtocolHandler.requests no_protocol no_network
         (snd (ProtocolHandler.request no_protocol no_network "dem://1/2/3"
                 RemoteProtocolHandler.init))
         ["dem://4/5/6"; "https://example.org/7/8/9"])
      !! 0%nat
    = Some RemoteProtocolHandler.Pending.
Proof.
  destruct (getData_never_rejects no_network [] "dem://1/2/3" eq_refl)
    as (h & w' & Hget & _ & Hhost).
  vm_compute in Hget. injection Hget as <- <-.
  eexists. split; [reflexivity|].
  destruct (Hhost no_protocol) as [_ Hfails].
  destruct Hfails as [_ Hpending]; [by left|].
  apply Hpending.
Defined.

(* ===================================================================== *)
(** * Further properties of slope-angle-tile.ts *)
(* ===================================================================== *)

(** The accessor of [fromHeightTile], in terms of the neighborhood. *)
Lemma fromHeightTile_get (Math_atan : Num.number -> Num.number)
    (heightTile : HeightTile.t) (pixelSize : option Num.number) (x y : Z) :
  in_bounds (HeightTile.width heightTile) (HeightTile.height heightTile) x y ->
  SlopeAngleTile.get
    (SlopeAngleTile.fromHeightTile Math_atan heightTile pixelSize) x y
  = if existsb Num.is_nan (neighborhood heightTile x y) then Num Num.NaN
    else
      Num (horn_degrees Math_atan
             (horn_dzdx (HeightTile.get heightTile (x - 1) (y - 1))
                        (HeightTile.get heightTile (x + 1) (y - 1))
                        (HeightTile.get heightTile (x - 1) y)
                        (HeightTile.get heightTile (x + 1) y)
                        (HeightTile.get heightTile (x - 1) (y + 1))
                        (HeightTile.get heightTile (x + 1) (y + 1))
                        (default (Num.of_Z 30) pixelSize))
             (horn_dzdy (HeightTile.get heightTile (x - 1) (y - 1))
                        (HeightTile.get heightTile x (y - 1))
                        (HeightTile.get heightTile (x + 1) (y - 1))
                        (HeightTile.get heightTile (x - 1) (y + 1))
                        (HeightTile.get heightTile x (y + 1))
                        (HeightTile.get heightTile (x + 1) (y + 1))
                        (default (Num.of_Z 30) pixelSize))).
Proof.
  intros Hin. apply in_bounds_test in Hin.
  unfold SlopeAngleTile.fromHeightTile. cbn [SlopeAngleTile.get].
  rewrite Hin. reflexivity.
Qed.

Lemma sub_self (v : Num.number) :
  is_finite v = true -> Num.sub v v = S754_zero false.
Proof.
  destruct v as [[]|[]| |s m e]; try done. intros _.
  unfold Num.sub, SFsub. cbv zeta. by rewrite Z.sub_diag.
Qed.

Lemma div_zero (d : Num.number) :
  divides_zero d = true ->
  exists s, Num.div (S754_zero false) d = S754_zero s.
Proof. destruct d as [|s| |s m e]; try done; intros _; by eexists. Qed.

(** X1. On flat ground the slope is [atan(+0) * 180 / pi]: when the eight
    samples around an in-bounds pixel all equal [z], their weighted sum
    [z + 2 z + z] is finite and [8 * pixelSize] is neither zero nor NaN, both
    gradients are zero. For an [atan] that maps +0 to +0 the slope is +0. *)
Theorem fromHeightTile_flat (Math_atan : Num.number -> Num.number)
    (heightTile : HeightTile.t) (pixelSize : option Num.number) (x y : Z)
    (z : Num.number) :
  in_bounds (HeightTile.width heightTile) (HeightTile.height heightTile) x y ->
  (forall v, v ∈ neighborhood heightTile x y -> v = z) ->
  is_finite (Num.add (Num.add z (Num.mul (Num.of_Z 2) z)) z) = true ->
  divides_zero (Num.mul (Num.of_Z 8) (default (Num.of_Z 30) pixelSize)) = true ->
  let tile := SlopeAngleTile.fromHeightTile Math_atan heightTile pixelSize in
  SlopeAngleTile.get tile x y
  = Num (Num.div (Num.mul (Math_atan (S754_zero false)) (Num.of_Z 180)) Num.PI)
  /\ (Math_atan (S754_zero false) = S754_zero false ->
      SlopeAngleTile.get tile x y = Num (S754_zero false)).
Proof.
  intros Hin Hflat Hsum Hden tile.
  assert (Num.is_nan z = false) as Hz.
  { destruct z; try done. }
  assert (SlopeAngleTile.get tile x y
          = Num (Num.div (Num.mul (Math_atan (S754_zero false)) (Num.of_Z 180))
                         Num.PI)) as Hget.
  { unfold tile. rewrite fromHeightTile_get by done.
    assert (existsb Num.is_nan (neighborhood heightTile x y) = false) as ->.
    { apply not_true_is_false. intros (v & Hv & Hnan)%existsb_exists.
      apply list_elem_of_In in Hv. rewrite (Hflat v Hv) in Hnan. congruence. }
    unfold neighborhood in Hflat.
    rewrite !(Hflat (HeightTile.get heightTile _ _))
      by (repeat (first [left | right])).
    unfold horn_degrees, horn_dzdx, horn_dzdy.
    rewrite (sub_self _ Hsum).
    destruct (div_zero _ Hden) as [s ->].
    by destruct s. }
  split; [done|]. intros Hatan. rewrite Hget, Hatan. reflexivity.
Qed.

Lemma fromHeightTile_flat_witness :
  SlopeAngleTile.get
    (SlopeAngleTile.fromHeightTile atan_first_order flat None) 1 1
  = Num (S754_zero false).
Proof.
  destruct (fromHeightTile_flat atan_first_order flat None 1 1 (Num.of_Z 100))
    as [_ H].
  - unfold in_bounds. simpl. lia.
  - intros v Hv. apply list_elem_of_In in Hv. simpl in Hv.
    repeat (destruct Hv as [<-|Hv]; [reflexivity|]). destruct Hv.
  - reflexivity.
  - reflexivity.
  - by apply H.
Defined.

Section MoreTiles.

Local Open Scope nat_scope.

Lemma take_drop_bind_pixelBytes (this : SlopeAngleTile.t)
    (maxAngle : Num.number) (n p : nat) :
  p < n ->
  take 4 (drop (p * 4) (seq 0 n ≫= pixelBytes this maxAngle))
  = pixelBytes this maxAngle p.
Proof.
  intros Hp.
  replace n with (p + S (n - S p)) by lia.
  rewrite seq_app, bind_app. cbn [seq]. rewrite bind_cons.
  rewrite drop_app_length' by (rewrite length_bind_pixelBytes, length_seq; lia).
  apply take_app_length'. reflexivity.
Qed.

(** The bytes of a pixel in the image buffer. *)
Lemma rgba_toImageBuffer (this : SlopeAngleTile.t)
    (maxAngle : option Num.number) (x y : nat) :
  x < SlopeAngleTile.width this -> y < SlopeAngleTile.height this ->
  let angle := SlopeAngleTile.get this (Z.of_nat x) (Z.of_nat y) in
  let m := default (Num.of_Z 45) maxAngle in
  rgba (SlopeAngleTile.toImageBuffer this maxAngle)
       (SlopeAngleTile.width this) x y
  = [ code_gray angle m; code_gray angle m; code_gray angle m;
      if isNaN angle then 0%Z else 255%Z ].
Proof.
  intros Hx Hy angle m. unfold rgba. rewrite toImageBuffer_bytes.
  rewrite take_drop_bind_pixelBytes by by apply pixel_index_lt.
  rewrite pixelBytes_eq. cbv zeta.
  destruct (pixel_index (SlopeAngleTile.width this) x y Hx) as [-> ->].
  done.
Qed.

End MoreTiles.

(** X2. A height tile that has no data outside its own rectangle (one that
    was not combined with neighbors) gives a slope tile whose rim is NaN, and
    an image whose rim pixels are fully transparent black. *)
Theorem fromHeightTile_border_transparent
    (Math_atan : Num.number -> Num.number) (heightTile : HeightTile.t)
    (pixelSize maxAngle : option Num.number) (x y : nat) :
  let w := HeightTile.width heightTile in
  let h := HeightTile.height heightTile in
  let tile := SlopeAngleTile.fromHeightTile Math_atan heightTile pixelSize in
  (forall i j : Z,
     ~ in_bounds w h i j -> Num.is_nan (HeightTile.get heightTile i j) = true) ->
  (x < w)%nat -> (y < h)%nat -> on_border w h x y ->
  SlopeAngleTile.get tile (Z.of_nat x) (Z.of_nat y) = Num Num.NaN /\
  rgba (SlopeAngleTile.toImageBuffer tile maxAngle) w x y = [0; 0; 0; 0].
Proof.
  intros w h tile Hout Hx Hy Hborder.
  assert (SlopeAngleTile.get tile (Z.of_nat x) (Z.of_nat y) = Num Num.NaN)
    as Hnan.
  { unfold tile. rewrite fromHeightTile_get by (unfold in_bounds; lia).
    assert (existsb Num.is_nan
              (neighborhood heightTile (Z.of_nat x) (Z.of_nat y)) = true)
      as ->; [|done].
    apply existsb_exists.
    assert (exists i j,
              In (HeightTile.get heightTile i j)
                 (neighborhood heightTile (Z.of_nat x) (Z.of_nat y)) /\
              ~ in_bounds w h i j) as (i & j & Hin & Hij).
    { unfold neighborhood, on_border, in_bounds in *.
      destruct Hborder as [Hb|[Hb|[Hb|Hb]]].
      - exists (Z.of_nat x - 1), (Z.of_nat y). split; [simpl; tauto|lia].
      - exists (Z.of_nat x + 1), (Z.of_nat y). split; [simpl; tauto|lia].
      - exists (Z.of_nat x), (Z.of_nat y - 1). split; [simpl; tauto|lia].
      - exists (Z.of_nat x), (Z.of_nat y + 1). split; [simpl; tauto|lia]. }
    exists (HeightTile.get heightTile i j). split; [done|]. by apply Hout. }
  split; [done|].
  change w with (SlopeAngleTile.width tile).
  rewrite rgba_toImageBuffer by done. cbv zeta. rewrite Hnan. reflexivity.
Qed.

Lemma fromHeightTile_border_transparent_witness :
  rgba (SlopeAngleTile.toImageBuffer
          (SlopeAngleTile.fromHeightTile atan_first_order
             (HeightTile.Build 2 2
                (fun i j =>
                   if (0 <=? i) && (i <? 2) && (0 <=? j) && (j <? 2)
                   then Num.of_Z 100 else Num.NaN))
             None)
          None) 2 1 0
  = [0; 0; 0; 0].
Proof.
  apply (fromHeightTile_border_transparent atan_first_order
           (HeightTile.Build 2 2
              (fun i j =>
                 if (0 <=? i) && (i <? 2) && (0 <=? j) && (j <? 2)
                 then Num.of_Z 100 else Num.NaN))
           None None 1 0).
  - intros i j Hij. unfold in_bounds in Hij. simpl in *.
    destruct ((0 <=? i) && (i <? 2) && (0 <=? j) && (j <? 2)) eqn:Htest;
      [|done].
    exfalso. apply Hij. lia.
  - simpl. lia.
  - simpl. lia.
  - unfold on_border. simpl. lia.
Defined.

Lemma Math_min_one (q : Num.number) :
  Num.leb (Num.of_Z 1) q = true -> Num.Math_min q (Num.of_Z 1) = Num.of_Z 1.
Proof.
  change (Num.of_Z 1) with (S754_finite false 4503599627370496 (-52)).
  unfold Num.leb, SFleb, Num.Math_min, SFltb.
  destruct q as [s|[]| |[] m e]; try done.
  cbn [SFcompare].
  destruct (Z.compare_spec (-52) e) as [<-|Hlt|Hgt]; try done.
  rewrite Pos.compare_cont_spec. cbn [Pos.switch_Eq].
  destruct (Pos.compare_spec 4503599627370496 m) as [<-|Hlt|Hgt]; done.
Qed.

(** X3. Saturation of the gray scale. A pixel that is not NaN and whose
    ratio [angle / maxAngle] is at least 1 is opaque white, and one whose
    ratio is a zero is opaque black. *)
Theorem toImageBuffer_black_and_white (this : SlopeAngleTile.t)
    (maxAngle : option Num.number) (x y : nat) :
  (x < SlopeAngleTile.width this)%nat ->
  (y < SlopeAngleTile.height this)%nat ->
  let angle := SlopeAngleTile.get this (Z.of_nat x) (Z.of_nat y) in
  let ratio := Num.div (ToNumber angle) (default (Num.of_Z 45) maxAngle) in
  let pixel :=
    rgba (SlopeAngleTile.toImageBuffer this maxAngle)
         (SlopeAngleTile.width this) x y in
  isNaN angle = false ->
  (Num.leb (Num.of_Z 1) ratio = true -> pixel = [255; 255; 255; 255]) /\
  (forall s, ratio = S754_zero s -> pixel = [0; 0; 0; 255]).
Proof.
  intros Hx Hy angle ratio pixel Hnan. unfold pixel.
  rewrite rgba_toImageBuffer by done. cbv zeta. fold angle.
  unfold code_gray. rewrite Hnan. fold ratio. split.
  - intros Hone. by rewrite Math_min_one.
  - intros s ->. by destruct s.
Qed.

Lemma toImageBuffer_black_and_white_witness :
  rgba (SlopeAngleTile.toImageBuffer ten_degrees (Some (Num.of_Z 5))) 1 0 0
  = [255; 255; 255; 255] /\
  rgba (SlopeAngleTile.toImageBuffer
          (SlopeAngleTile.Build 1 1 (fun _ _ => Num (Num.of_Z 0))) None) 1 0 0
  = [0; 0; 0; 255].
Proof.
  split.
  - apply (toImageBuffer_black_and_white ten_degrees (Some (Num.of_Z 5)) 0 0);
      [simpl; lia..|reflexivity|reflexivity].
  - destruct (toImageBuffer_black_and_white
                (SlopeAngleTile.Build 1 1 (fun _ _ => Num (Num.of_Z 0)))
                None 0 0) as [_ H]; [simpl; lia..|reflexivity|].
    by apply (H false).
Defined.

Lemma materialize_dimensions (this : SlopeAngleTile.t) :
  SlopeAngleTile.width (SlopeAngleTile.materialize this)
  = SlopeAngleTile.width this /\
  SlopeAngleTile.height (SlopeAngleTile.materialize this)
  = SlopeAngleTile.height this.
Proof. unfold SlopeAngleTile.materialize. by destruct (foldl _ _ _). Qed.

Lemma materialize_pixel (this : SlopeAngleTile.t) (x y : nat) :
  (x < SlopeAngleTile.width this)%nat ->
  (y < SlopeAngleTile.height this)%nat ->
  SlopeAngleTile.get (SlopeAngleTile.materialize this) (Z.of_nat x) (Z.of_nat y)
  = Num (Num.fround
           (ToNumber (SlopeAngleTile.get this (Z.of_nat x) (Z.of_nat y)))).
Proof.
  intros Hx Hy. rewrite materialize_get_index. cbv zeta.
  set (w := Z.of_nat (SlopeAngleTile.width this)).
  set (h := Z.of_nat (SlopeAngleTile.height this)).
  assert (0 <= Z.of_nat x < w /\ 0 <= Z.of_nat y < h) as [Hx' Hy']
    by (unfold w, h; lia).
  replace ((0 <=? Z.of_nat y * w + Z.of_nat x)
           && (Z.of_nat y * w + Z.of_nat x <? w * h)) with true by nia.
  replace ((Z.of_nat y * w + Z.of_nat x) mod w) with (Z.of_nat x).
  2:{ rewrite Z.add_comm, Z.mod_add by lia. by rewrite Z.mod_small. }
  replace ((Z.of_nat y * w + Z.of_nat x) / w) with (Z.of_nat y); [done|].
  rewrite Z.add_comm, Z.div_add by lia. rewrite Z.div_small by lia. done.
Qed.

(** X4. Materializing a tile does not change which pixels of its image are
    transparent: the image of the materialized tile has the same length, and
    every pixel has the same alpha byte as in the image of the lazy tile. *)
Theorem materialize_keeps_transparency (this : SlopeAngleTile.t)
    (maxAngle : option Num.number) :
  let dense := SlopeAngleTile.materialize this in
  let w := SlopeAngleTile.width this in
  length (SlopeAngleTile.toImageBuffer dense maxAngle)
  = length (SlopeAngleTile.toImageBuffer this maxAngle) /\
  forall x y : nat,
    (x < w)%nat -> (y < SlopeAngleTile.height this)%nat ->
    rgba (SlopeAngleTile.toImageBuffer dense maxAngle) w x y !! 3%nat
    = rgba (SlopeAngleTile.toImageBuffer this maxAngle) w x y !! 3%nat.
Proof.
  intros dense w.
  destruct (materialize_dimensions this) as [Hw Hh]. split.
  - rewrite !toImageBuffer_bytes, !length_bind_pixelBytes, !length_seq.
    unfold dense. by rewrite Hw, Hh.
  - intros x y Hx Hy. unfold w. rewrite <- Hw at 1. fold dense.
    rewrite !rgba_toImageBuffer by (unfold dense; rewrite ?Hw, ?Hh; done).
    cbv zeta. cbn [lookup list_lookup]. unfold dense.
    rewrite materialize_pixel by done.
    unfold isNaN. cbn [ToNumber]. by rewrite is_nan_fround.
Qed.

(* ===================================================================== *)
(** * Further properties of slope-angle-source.ts *)
(* ===================================================================== *)

(** ** parseUrl and the query string *)

Lemma pretty_N_char_digit (d : N) :
  (d < 10)%N ->
  SlopeAngleSource.is_digit (pretty_N_char d) = true /\
  Z.of_nat (nat_of_ascii (pretty_N_char d)) - 48 = Z.of_N d.
Proof.
  intros Hd.
  assert (d = 0 \/ d = 1 \/ d = 2 \/ d = 3 \/ d = 4 \/ d = 5 \/ d = 6
          \/ d = 7 \/ d = 8 \/ d = 9)%N as Hcases by lia.
  repeat (destruct Hcases as [->|Hcases]; [by split|]). by subst.
Qed.

Lemma pretty_N_go_app (x : N) (s1 s2 : string) :
  pretty_N_go x s1 +:+ s2 = pretty_N_go x (s1 +:+ s2).
Proof.
  revert s1. induction (N.lt_wf_0 x) as [x _ IH]; intros s1.
  assert (x = 0 \/ 0 < x)%N as [->|Hx] by lia; [by rewrite !pretty_N_go_0|].
  rewrite (pretty_N_go_step x s1), (pretty_N_go_step x (s1 +:+ s2)) by done.
  rewrite IH by by apply N.div_lt. reflexivity.
Qed.

(** Reading back the digits that [pretty_N_go] writes. *)
Lemma digits_pretty_N_go (x : N) (s : string) :
  SlopeAngleSource.digits (pretty_N_go x s) None
  = SlopeAngleSource.digits s
      (if decide (x = 0%N) then None else Some (Z.of_N x)).
Proof.
  revert s. induction (N.lt_wf_0 x) as [x _ IH]; intros s.
  destruct (decide (x = 0%N)) as [->|Hx]; [by rewrite pretty_N_go_0|].
  rewrite pretty_N_go_step by lia. rewrite IH by (apply N.div_lt; lia).
  destruct (pretty_N_char_digit (x `mod` 10)) as [Hdigit Hvalue].
  { apply N.mod_lt. lia. }
  cbn [SlopeAngleSource.digits]. rewrite Hdigit, Hvalue. f_equal. f_equal.
  pose proof (N.div_mod x 10 ltac:(lia)) as Hdiv.
  destruct (decide ((x `div` 10)%N = 0%N)) as [H0|H0]; simpl; lia.
Qed.

Lemma digits_stop (s : string) (acc : option Z) :
  no_leading_digit s = true -> SlopeAngleSource.digits s acc = (acc, s).
Proof.
  destruct s as [|c s]; [done|]. cbn [no_leading_digit SlopeAngleSource.digits].
  by destruct (SlopeAngleSource.is_digit c).
Qed.

(** [\d+] reads a printed natural number back. *)
Lemma digits_pretty (n : nat) (s : string) :
  no_leading_digit s = true ->
  SlopeAngleSource.digits (pretty n +:+ s) None = (Some (Z.of_nat n), s).
Proof.
  intros Hs. unfold pretty, pretty_nat, pretty, pretty_N.
  destruct (decide (N.of_nat n = 0%N)) as [H0|H0].
  - change ("0" +:+ s) with (String "0" s).
    cbn [SlopeAngleSource.digits].
    change (SlopeAngleSource.is_digit "0") with true. cbv iota.
    rewrite digits_stop by done.
    assert (n = 0%nat) as -> by lia. reflexivity.
  - rewrite pretty_N_go_app. change ("" +:+ s) with s.
    rewrite digits_pretty_N_go.
    destruct (decide (N.of_nat n = 0%N)); [done|].
    rewrite digits_stop by done. f_equal. f_equal. lia.
Qed.

Lemma exec_skip (scheme t : string) :
  no_slash scheme = true ->
  SlopeAngleSource.exec (scheme +:+ t) = SlopeAngleSource.exec t.
Proof.
  induction scheme as [|c scheme IH]; intros Hs; [done|].
  unfold no_slash in Hs. cbn [string_forall] in Hs.
  apply andb_true_iff in Hs as [Hc Hs].
  change (String c scheme +:+ t) with (String c (scheme +:+ t)).
  cbn [SlopeAngleSource.exec].
  assert (SlopeAngleSource.match_here (String c (scheme +:+ t)) = None) as ->.
  { unfold SlopeAngleSource.match_here. cbn [SlopeAngleSource.slash].
    by destruct (Ascii.eqb c "/"). }
  by apply IH.
Qed.

Lemma slash_slash (s : string) :
  SlopeAngleSource.slash ("/" +:+ s) = Some s.
Proof. reflexivity. Qed.

Lemma match_here_tile (z x y : nat) (rest : string) :
  no_leading_digit rest = true ->
  SlopeAngleSource.match_here
    ("//" +:+ pretty z +:+ "/" +:+ pretty x +:+ "/" +:+ pretty y +:+ rest)
  = Some (Z.of_nat z, Z.of_nat x, Z.of_nat y).
Proof.
  intros Hrest. unfold SlopeAngleSource.match_here.
  change ("//" +:+ ?s) with ("/" +:+ "/" +:+ s).
  rewrite !slash_slash. cbn [mbind option_bind].
  rewrite !slash_slash. cbn [mbind option_bind].
  rewrite (digits_pretty z) by done. cbn [mbind option_bind].
  rewrite slash_slash. cbn [mbind option_bind].
  rewrite (digits_pretty x) by done. cbn [mbind option_bind].
  rewrite slash_slash. cbn [mbind option_bind].
  rewrite (digits_pretty y) by done. reflexivity.
Qed.

(** X5. A url that carries [//z/x/y] after a scheme without a slash, printed
    in decimal and followed by anything that does not go on with a digit
    (a query string, an extension, nothing), is parsed back to exactly the
    three numbers. *)
Theorem parseUrl_round_trip (scheme rest : string) (z x y : nat) :
  no_slash scheme = true ->
  no_leading_digit rest = true ->
  SlopeAngleSource.parseUrl
    (scheme +:+ "//" +:+ pretty z +:+ "/" +:+ pretty x +:+ "/" +:+ pretty y
       +:+ rest)
  = (Num.of_Z (Z.of_nat z), Num.of_Z (Z.of_nat x), Num.of_Z (Z.of_nat y)).
Proof.
  intros Hscheme Hrest. unfold SlopeAngleSource.parseUrl.
  rewrite exec_skip by done.
  assert (forall s r, SlopeAngleSource.match_here s = Some r ->
                      SlopeAngleSource.exec s = Some r) as Hexec.
  { intros s r Hs. destruct s; cbn [SlopeAngleSource.exec]; by rewrite Hs. }
  by rewrite (Hexec _ _ (match_here_tile z x y rest Hrest)).
Qed.

Lemma parseUrl_round_trip_witness :
  SlopeAngleSource.parseUrl "slope-slope://12/2048/1365?maxAngle=30"
  = (Num.of_Z 12, Num.of_Z 2048, Num.of_Z 1365).
Proof.
  exact (parseUrl_round_trip "slope-slope:" "?maxAngle=30" 12 2048 1365
           eq_refl eq_refl).
Defined.

Lemma of_Z_not_nan (n : Z) : Num.is_nan (Num.of_Z n) = false.
Proof.
  unfold Num.of_Z, binary_normalize. destruct n as [|m|m]; [done| |].
  - pose proof (binary_round_not_nan Num.prec Num.emax false m 0) as H.
    by destruct (binary_round Num.prec Num.emax false m 0).
  - pose proof (binary_round_not_nan Num.prec Num.emax true m 0) as H.
    by destruct (binary_round Num.prec Num.emax true m 0).
Qed.

Lemma is_digit_code (c : ascii) :
  SlopeAngleSource.is_digit c = true -> 0 <= Z.of_nat (nat_of_ascii c) - 48.
Proof.
  unfold SlopeAngleSource.is_digit. intros [H _]%andb_true_iff. lia.
Qed.

Lemma digits_nonneg (s : string) :
  forall (acc : option Z) (v : Z) (s' : string),
    0 <= default 0 acc ->
    SlopeAngleSource.digits s acc = (Some v, s') -> 0 <= v.
Proof.
  induction s as [|c s IH]; intros acc v s' Hacc Hdigits;
    cbn [SlopeAngleSource.digits] in Hdigits.
  - injection Hdigits as -> _. exact Hacc.
  - destruct (SlopeAngleSource.is_digit c) eqn:Hc.
    + eapply IH; [|exact Hdigits]. apply is_digit_code in Hc. simpl. lia.
    + injection Hdigits as -> _. exact Hacc.
Qed.

Lemma match_here_nonneg (s : string) (z x y : Z) :
  SlopeAngleSource.match_here s = Some (z, x, y) -> 0 <= z /\ 0 <= x /\ 0 <= y.
Proof.
  unfold SlopeAngleSource.match_here. intros H.
  destruct (SlopeAngleSource.slash s) as [s1|]; [|done]. cbn in H.
  destruct (SlopeAngleSource.slash s1) as [s2|]; [|done]. cbn in H.
  destruct (SlopeAngleSource.digits s2 None) as [[z'|] s3] eqn:Hz; [|done].
  cbn in H.
  destruct (SlopeAngleSource.slash s3) as [s4|]; [|done]. cbn in H.
  destruct (SlopeAngleSource.digits s4 None) as [[x'|] s5] eqn:Hx; [|done].
  cbn in H.
  destruct (SlopeAngleSource.slash s5) as [s6|]; [|done]. cbn in H.
  destruct (SlopeAngleSource.digits s6 None) as [[y'|] s7] eqn:Hy; [|done].
  cbn in H. injection H as -> -> ->.
  split; [|split]; eapply digits_nonneg; try eassumption; done.
Qed.

Lemma exec_nonneg (s : string) (z x y : Z) :
  SlopeAngleSource.exec s = Some (z, x, y) -> 0 <= z /\ 0 <= x /\ 0 <= y.
Proof.
  induction s as [|c s IH]; cbn [SlopeAngleSource.exec].
  - destruct (SlopeAngleSource.match_here "") as [r|] eqn:Hr; [|done].
    intros [= ->]. by eapply match_here_nonneg.
  - destruct (SlopeAngleSource.match_here (String c s)) as [r|] eqn:Hr;
      [|exact IH].
    intros [= ->]. by eapply match_here_nonneg.
Qed.

(** X6. [parseUrl] is all or nothing: either the three coordinates are all
    NaN, or they are the numbers of three non-negative integers and none of
    them is NaN. A url never yields a mix, a negative or a fractional
    coordinate. *)
Theorem parseUrl_all_or_nothing (url : string) :
  SlopeAngleSource.parseUrl url = (Num.NaN, Num.NaN, Num.NaN) \/
  exists z x y : Z,
    0 <= z /\ 0 <= x /\ 0 <= y /\
    SlopeAngleSource.parseUrl url = (Num.of_Z z, Num.of_Z x, Num.of_Z y) /\
    Num.is_nan (Num.of_Z z) = false /\
    Num.is_nan (Num.of_Z x) = false /\
    Num.is_nan (Num.of_Z y) = false.
Proof.
  unfold SlopeAngleSource.parseUrl.
  destruct (SlopeAngleSource.exec url) as [[[z x] y]|] eqn:Hexec; [|by left].
  right. exists z, x, y. apply exec_nonneg in Hexec as (Hz & Hx & Hy).
  by rewrite !of_Z_not_nan.
Qed.

Lemma upto_question_app (q rest : string) :
  no_question q = true ->
  SlopeAngleSource.upto_question q = q /\
  SlopeAngleSource.upto_question (q +:+ "?" +:+ rest) = q.
Proof.
  induction q as [|c q IH]; intros Hq; [done|].
  unfold no_question in Hq. cbn [string_forall] in Hq.
  apply andb_true_iff in Hq as [Hc Hq]. destruct (IH Hq) as [IH1 IH2].
  change (String c q +:+ "?" +:+ rest) with (String c (q +:+ "?" +:+ rest)).
  cbn [SlopeAngleSource.upto_question].
  destruct (Ascii.eqb c "?"); [done|]. by rewrite IH1, IH2.
Qed.

(** X7. The query string the handler reads is what stands between the first
    and the second question mark of the url: for a url [base?q] it is [q],
    for [base?q?rest] it is still [q], and for a url without a question mark
    it is empty. *)
Theorem query_first_segment (base q rest : string) :
  no_question base = true ->
  no_question q = true ->
  SlopeAngleSource.query base = "" /\
  SlopeAngleSource.query (base +:+ "?" +:+ q) = q /\
  SlopeAngleSource.query (base +:+ "?" +:+ q +:+ "?" +:+ rest) = q.
Proof.
  intros Hbase Hq. destruct (upto_question_app q rest Hq) as [Hq1 Hq2].
  induction base as [|c base IH]; [done|].
  unfold no_question in Hbase. cbn [string_forall] in Hbase.
  apply andb_true_iff in Hbase as [Hc Hbase].
  destruct (IH Hbase) as (IH1 & IH2 & IH3).
  change (String c base +:+ ?s) with (String c (base +:+ s)).
  cbn [SlopeAngleSource.query]. by destruct (Ascii.eqb c "?").
Qed.

Lemma query_first_segment_witness :
  SlopeAngleSource.query "slope-slope://5/10/10" = "" /\
  SlopeAngleSource.query "slope-slope://5/10/10?maxAngle=30" = "maxAngle=30" /\
  SlopeAngleSource.query "slope-slope://5/10/10?maxAngle=30?pixelSize=9"
  = "maxAngle=30".
Proof.
  exact (query_first_segment "slope-slope://5/10/10" "maxAngle=30"
           "pixelSize=9" eq_refl eq_refl).
Defined.

(** ** v3compat *)



(** ** The constructor, onTiming and the timing report *)

Section MoreSource.

Import JS.

Context {W DemTile : Type}.
Variable fromRawDem : DemTile -> HeightTile.t.
Variable Math_atan : Num.number -> Num.number.
Variable parseFloat : string -> Num.number.
Variable URLSearchParams_get : string -> string -> option string.
Variable Date_now : W -> Z.

Local Abbreviation Source := (SlopeAngleSource.t W DemTile).
Local Abbreviation slopeProtocolV4 :=
  (SlopeAngleSource.slopeProtocolV4 W DemTile fromRawDem Math_atan parseFloat
     URLSearchParams_get Date_now).
Local Abbreviation timingCallbacks :=
  (SlopeAngleSource.timingCallbacks W DemTile).
Local Abbreviation demManager := (SlopeAngleSource.demManager W DemTile).
Local Abbreviation fetchAndParseTile :=
  (SlopeAngleSource.fetchAndParseTile W DemTile).
Local Abbreviation slopeProtocolId :=
  (SlopeAngleSource.slopeProtocolId W DemTile).
Local Abbreviation url := SlopeAngleSource.url.

Lemma new_fields (manager : SlopeAngleSource.DemManager W DemTile)
    (id : option string) (used used' : gset string) (source : Source) :
  SlopeAngleSource.new W DemTile manager id used = Some (source, used') ->
  timingCallbacks source = [] /\ demManager source = manager.
Proof.
  unfold SlopeAngleSource.new.
  destruct (SlopeAngleSource.uniquePrefix _ _ _ _ _); [|done].
  by intros [= <- _].
Qed.

Lemma register_all_fields (source : Source)
    (callbacks : list (SlopeAngleSource.Timing -> M W unit)) :
  timingCallbacks (register_all source callbacks)
  = timingCallbacks source ++ callbacks /\
  demManager (register_all source callbacks) = demManager source /\
  slopeProtocolId (register_all source callbacks) = slopeProtocolId source.
Proof.
  revert source. unfold register_all.
  induction callbacks as [|cb cbs IH]; intros source; cbn [foldl].
  - by rewrite app_nil_r.
  - destruct (IH (SlopeAngleSource.onTiming W DemTile source cb))
      as (-> & -> & ->).
    cbn. by rewrite <- app_assoc.
Qed.

(** The outcome of a request on a source without timing callbacks. *)
Lemma slopeProtocolV4_quiet (this : Source)
    (request : SlopeAngleSource.RequestParameters)
    (abortController : AbortController) (w : W) (z x y : Num.number) :
  timingCallbacks this = [] ->
  SlopeAngleSource.parseUrl (url request) = (z, x, y) ->
  slopeProtocolV4 this request abortController w
  = let '(results, w1) :=
      allSettled (fetchSlot this abortController <$> slots z x y) w in
    (match Stitch.combineNeighbors (heightTiles fromRawDem results) with
     | None => Rejected (Error "Center tile is required but was not available")
     | Some combined =>
         Fulfilled (encoded Math_atan parseFloat URLSearchParams_get request
                      combined (Date_now w1))
     end, w1).
Proof.
  intros Hquiet Hparse.
  rewrite slopeProtocolV4_eq, (tryBlock_eq _ _ _ _ _ _ _ _ _ z x y Hparse).
  rewrite Hquiet.
  destruct (allSettled _ w) as [results w1].
  by destruct (Stitch.combineNeighbors _).
Qed.

(** X9. The url is not validated. When [parseUrl] finds no tile in it, the
    handler still issues its nine fetches, every one of them for the tile
    NaN/NaN/NaN, and the answer is made from their outcomes as for any other
    request. *)
Theorem slopeProtocolV4_unparsed_url (this : Source)
    (request : SlopeAngleSource.RequestParameters)
    (abortController : AbortController) (w : W) :
  timingCallbacks this = [] ->
  SlopeAngleSource.parseUrl (url request) = (Num.NaN, Num.NaN, Num.NaN) ->
  slopeProtocolV4 this request abortController w
  = let '(results, w1) :=
      allSettled
        (replicate 9
           (fetchAndParseTile (demManager this) Num.NaN Num.NaN Num.NaN
              abortController)) w in
    (match Stitch.combineNeighbors (heightTiles fromRawDem results) with
     | None => Rejected (Error "Center tile is required but was not available")
     | Some combined =>
         Fulfilled (encoded Math_atan parseFloat URLSearchParams_get request
                      combined (Date_now w1))
     end, w1).
Proof.
  intros Hquiet Hparse.
  by rewrite (slopeProtocolV4_quiet this request abortController w _ _ _
                Hquiet Hparse).
Qed.

End MoreSource.

Lemma forEach_returns {W : Type}
    (callbacks : list (SlopeAngleSource.Timing -> JS.M W unit))
    (timing : SlopeAngleSource.Timing) (w : W) :
  (forall cb, cb ∈ callbacks -> forall w, fst (cb timing w) = JS.Normal tt) ->
  JS.forEach callbacks (fun cb => cb timing) w
  = (JS.Normal tt, foldl (fun w cb => snd (cb timing w)) w callbacks).
Proof.
  revert w. induction callbacks as [|cb callbacks IH]; intros w Hreturn; [done|].
  cbn [JS.forEach foldl]. unfold JS.bind at 1.
  pose proof (Hreturn cb ltac:(left) w) as Hcb.
  destruct (cb timing w) as [c w'] eqn:Hcall. cbn [fst snd] in *. subst c.
  apply IH. intros cb' Hcb'. apply Hreturn. by right.
Qed.

(** X10. A source right out of its constructor has no timing callback. After
    callbacks were registered with [onTiming], none of which throws, one
    request calls each of them exactly once, in the order of registration,
    after the nine fetches, and all with the same timing: that of a finished
    request when the request is fulfilled, that of an error when it is
    rejected. The world the request leaves is the world after the fetches
    with the effects of the callbacks applied one after the other. *)
Theorem timing_reported_once_in_order {W DemTile : Type}
    (fromRawDem : DemTile -> HeightTile.t)
    (Math_atan : Num.number -> Num.number)
    (parseFloat : string -> Num.number)
    (URLSearchParams_get : string -> string -> option string)
    (Date_now : W -> Z)
    (manager : SlopeAngleSource.DemManager W DemTile)
    (id : option string) (used used' : gset string)
    (source : SlopeAngleSource.t W DemTile)
    (callbacks : list (SlopeAngleSource.Timing -> JS.M W unit))
    (request : SlopeAngleSource.RequestParameters)
    (abortController : JS.AbortController) (w : W)
    (z x y : Num.number) :
  SlopeAngleSource.new W DemTile manager id used = Some (source, used') ->
  SlopeAngleSource.parseUrl (SlopeAngleSource.url request) = (z, x, y) ->
  (forall cb, cb ∈ callbacks ->
     forall timing w, fst (cb timing w) = JS.Normal tt) ->
  let this := register_all source callbacks in
  let answer :=
    SlopeAngleSource.slopeProtocolV4 W DemTile fromRawDem Math_atan
      parseFloat URLSearchParams_get Date_now this request abortController w in
  let timing := timing_of (SlopeAngleSource.url request) (fst answer) in
  SlopeAngleSource.timingCallbacks W DemTile source = [] /\
  snd answer
  = foldl (fun w cb => snd (cb timing w))
          (foldl (fun w slot => snd (fetchSlot this abortController slot w)) w
                 (slots z x y))
          callbacks.
Proof.
  intros Hnew Hparse Hreturn this answer timing. subst timing answer.
  destruct (new_fields manager id used used' source Hnew) as [Hnone _].
  split; [done|].
  destruct (register_all_fields source callbacks) as (Hcallbacks & _).
  fold this in Hcallbacks.
  rewrite Hnone in Hcallbacks. cbn [app] in Hcallbacks.
  rewrite slopeProtocolV4_eq.
  rewrite (tryBlock_eq _ _ _ _ _ _ _ _ _ z x y Hparse).
  pose proof (allSettled_world (fetchSlot this abortController <$> slots z x y)
                w) as Hworld.
  rewrite foldl_fmap in Hworld.
  destruct (JS.allSettled _ w) as [results w1]. cbn [snd] in Hworld.
  subst w1. rewrite Hcallbacks.
  destruct (Stitch.combineNeighbors _); cbn [underlying fst snd];
    by rewrite forEach_returns by (intros cb Hcb w0; by apply Hreturn).
Qed.

Lemma timing_reported_once_in_order_witness :
  snd (SlopeAngleSource.slopeProtocolV4 Observations HeightTile.t
         (fun dem => dem) atan_first_order parseFloat_digits
         (fun _ _ => None) (fun _ => 0)
         (register_all
            (SlopeAngleSource.Build Observations HeightTile.t "slope-slope"
               "slope-slope://{z}/{x}/{y}" silent_manager [])
            [tagged_recorder 0; tagged_recorder 1])
         {| SlopeAngleSource.url := "slope-slope://5/10/10" |}
         JS.new_AbortController [])
  = [ (0%nat, SlopeAngleSource.TimingError "slope-slope://5/10/10");
      (1%nat, SlopeAngleSource.TimingError "slope-slope://5/10/10") ].
Proof.
  assert (SlopeAngleSource.new Observations HeightTile.t silent_manager None ∅
          = Some (SlopeAngleSource.Build Observations HeightTile.t
                    "slope-slope" "slope-slope://{z}/{x}/{y}" silent_manager [],
                  {[ "slope" ]} ∪ ∅)) as Hnew by (vm_compute; reflexivity).
  assert (forall cb, cb ∈ [tagged_recorder 0; tagged_recorder 1] ->
            forall timing (w : Observations), fst (cb timing w) = JS.Normal tt)
    as Hreturn.
  { intros cb Hcb timing w.
    apply elem_of_cons in Hcb as [->|Hcb]; [done|].
    apply elem_of_cons in Hcb as [->|Hcb]; [done|].
    by apply elem_of_nil in Hcb. }
  etrans.
  - exact (proj2 (timing_reported_once_in_order (fun dem => dem)
                    atan_first_order parseFloat_digits (fun _ _ => None)
                    (fun _ => 0) silent_manager None ∅ _ _
                    [tagged_recorder 0; tagged_recorder 1]
                    {| SlopeAngleSource.url := "slope-slope://5/10/10" |}
                    JS.new_AbortController [] (Num.of_Z 5) (Num.of_Z 10)
                    (Num.of_Z 10) Hnew eq_refl Hreturn)).
  - vm_compute. reflexivity.
Defined.

Lemma slopeProtocolV4_unparsed_url_witness :
  SlopeAngleSource.slopeProtocolV4 Log HeightTile.t (fun dem => dem)
    atan_first_order parseFloat_digits (fun _ _ => None) (fun _ => 0)
    (bench_source offline [])
    {| SlopeAngleSource.url := "slope-slope:/5/10/10" |}
    JS.new_AbortController []
  = (JS.Rejected (JS.Error "Center tile is required but was not available"),
     replicate 9 (Num.NaN, Num.NaN, Num.NaN)).
Proof.
  etrans.
  - exact (slopeProtocolV4_unparsed_url (fun dem => dem) atan_first_order
             parseFloat_digits (fun _ _ => None) (fun _ => 0)
             (bench_source offline [])
             {| SlopeAngleSource.url := "slope-slope:/5/10/10" |}
             JS.new_AbortController [] eq_refl eq_refl).
  - vm_compute. reflexivity.
Defined.

Section MoreConstructor.

Context {W DemTile : Type}.
Variable manager : SlopeAngleSource.DemManager W DemTile.

Lemma construct_all_prefixes (ids : list (option string)) (used : gset string) :
  exists sources used' prefixes,
    construct_all manager ids used = Some (sources, used') /\
    SlopeAngleSource.slopeProtocolId W DemTile <$> sources
    = (fun p => p +:+ "-slope") <$> prefixes /\
    length prefixes = length ids /\
    NoDup prefixes /\
    (forall p, p ∈ prefixes -> (p ∉ used) /\ (p ∈ used')) /\
    used ⊆ used'.
Proof.
  revert used. induction ids as [|id ids IH]; intros used; cbn [construct_all].
  - exists [], used, []. split; [done|]. split; [done|]. split; [done|].
    split; [constructor|]. split; [|done]. by intros p ?%elem_of_nil.
  - destruct (new_spec manager id used) as (p & source & -> & Hid & Hfree & _).
    destruct (IH ({[ p ]} ∪ used))
      as (sources & used' & prefixes & -> & Hids & Hlen & Hnodup & Hfresh & Hsub).
    exists (source :: sources), used', (p :: prefixes).
    split; [done|]. split; [by rewrite !fmap_cons, Hid, Hids|].
    split; [by rewrite !length_cons, Hlen|]. split; [|split].
    + constructor; [|done]. intros Hp. destruct (Hfresh p Hp) as [Hnot _].
      apply Hnot, elem_of_union_l. by apply elem_of_singleton.
    + intros q [->|Hq]%elem_of_cons.
      * split; [done|]. apply Hsub, elem_of_union_l. by apply elem_of_singleton.
      * destruct (Hfresh q Hq) as [Hnot Hin]. split; [|done].
        intros Hused. by apply Hnot, elem_of_union_r.
    + intros q Hq. by apply Hsub, elem_of_union_r.
Qed.

(** X11. Any number of constructions, with any base ids and after any
    earlier ones, all return, and the protocol ids they get are pairwise
    distinct and differ from the protocol id of every prefix that was in use
    before. *)
Theorem construct_all_distinct (ids : list (option string))
    (used : gset string) :
  exists sources used',
    construct_all manager ids used = Some (sources, used') /\
    length sources = length ids /\
    NoDup (SlopeAngleSource.slopeProtocolId W DemTile <$> sources) /\
    (forall source p,
       source ∈ sources -> p ∈ used ->
       SlopeAngleSource.slopeProtocolId W DemTile source <> p +:+ "-slope") /\
    used ⊆ used'.
Proof.
  destruct (construct_all_prefixes ids used)
    as (sources & used' & prefixes & Hall & Hids & Hlen & Hnodup & Hfresh & Hsub).
  exists sources, used'. split; [done|].
  split; [by rewrite <- Hlen, <- (length_fmap (SlopeAngleSource.slopeProtocolId W DemTile)), Hids, length_fmap|].
  split; [|split; [|done]].
  - rewrite Hids. apply NoDup_fmap_2; [|done].
    intros p q. apply string_app_inj_r.
  - intros source p Hsource Hp Heq.
    assert (SlopeAngleSource.slopeProtocolId W DemTile source ∈ SlopeAngleSource.slopeProtocolId W DemTile <$> sources) as Hin
      by by apply list_elem_of_fmap_2.
    rewrite Hids in Hin. apply list_elem_of_fmap in Hin as (q & Hq & Hin).
    rewrite Heq in Hq. apply string_app_inj_r in Hq as ->.
    by destruct (Hfresh q Hin).
Qed.

End MoreConstructor.

(* ===================================================================== *)
(** * Further properties of the RPC bridge *)
(* ===================================================================== *)

Section MoreBridge.

Import JS RemoteProtocolHandler.
Local Open Scope nat_scope.

Variable fetch : string -> AbortController -> settled HttpResponse.

(** ** Correlation ids *)

(** X22. In every state the worker can reach: a delegated [getData]
    registers its resolver under the id made from the counter, which is in
    use nowhere (not pending, never posted before), so no id is ever reused;
    a message whose id has a pending resolver has that resolver called once,
    with the message's payload, and removed, the listener returns, the
    resolver was never called before, and a second message with the same id
    returns and changes nothing; a message whose id has no pending resolver
    never changes the state, and the listener returns unless the id names a
    member of [Object.prototype] whose call throws; and no resolver was ever
    called twice. *)
Theorem rpc_correlation_ids (es : list event) :
  let w := run fetch init es in
  (forall (url : string) (ac : AbortController),
     String.prefix "https://" url = false ->
     let k := eventId (id w) in
     let w' := snd (getData fetch url ac w) in
     callbacks w !! k = None /\
     (k ∉ req_id <$> posted w) /\
     fst (getData fetch url ac w) = Delegated (length (promises w)) /\
     callbacks w' !! k = Some (resolve (length (promises w))) /\
     posted w' = posted w ++ [{| req_id := k; req_url := url |}] /\
     id w' = S (id w)) /\
  NoDup (req_id <$> posted w) /\
  (forall (m : Response) (r : Resolver),
     callbacks w !! res_id m = Some r ->
     let w' := snd (onmessage m w) in
     fst (onmessage m w) = Normal tt /\
     invoked w' = invoked w ++ [(r, res_payload m)] /\
     callbacks w' !! res_id m = None /\
     (r ∉ (invoked w).*1) /\
     forall m' : Response,
       res_id m' = res_id m -> onmessage m' w' = (Normal tt, w')) /\
  (forall m : Response,
     callbacks w !! res_id m = None ->
     snd (onmessage m w) = w /\
     (Object_prototype (res_id m) <> Some (Throw TypeError) ->
      fst (onmessage m w) = Normal tt)) /\
  NoDup (invoked w).*1.
Proof.
  intros w. assert (wf w) as Hwf by apply wf_run, wf_init.
  split; [|split; [|split; [|split]]].
  - intros url ac Hurl k w'. unfold w'.
    destruct (wf_fresh w (id w) Hwf) as [Hfree Hposted]; [done|].
    rewrite getData_delegated by done. cbn [fst snd callbacks posted id].
    split; [done|]. split; [done|]. split; [done|].
    split; [apply lookup_insert_eq|]. by split.
  - rewrite (wf_posted w Hwf). apply NoDup_fmap_2_strong; [|apply NoDup_seq].
    intros ?? _ _. apply eventId_inj.
  - intros m r Hm w'. unfold w'.
    split; [unfold onmessage; by rewrite Hm|].
    rewrite (onmessage_hit m w r) by done.
    cbn [invoked callbacks]. split; [done|]. split; [apply lookup_delete_eq|].
    destruct r as [h].
    destruct (wf_callbacks w Hwf _ _ Hm) as (n & _ & Hk & _ & Hnew).
    split; [done|].
    intros m' Hid. apply onmessage_ignored; cbn [callbacks].
    + rewrite Hid. apply lookup_delete_eq.
    + rewrite Hid, Hk. done.
  - intros m Hm. split; [by apply onmessage_miss|].
    intros Hproto. by rewrite onmessage_ignored.
  - apply (wf_invoked w Hwf).
Qed.

(** ** The direct path *)

(** X12. For a url that starts with "https://", [getData] leaves the bridge
    alone (no id is used, nothing is posted or registered) and returns the
    promise of the platform's fetch: rejected with the same reason when the
    fetch is rejected, rejected with "Bad response: <status> for <url>" when
    the response is not ok, and fulfilled only from an ok response, with its
    body and with headers that are never the empty string. *)
Theorem getData_https (url : string) (ac : AbortController) (w : Worker) :
  String.prefix "https://" url = true ->
  exists outcome,
    getData fetch url ac w = (Direct outcome, w) /\
    (forall e, fetch url ac = Rejected e -> outcome = Rejected e) /\
    (forall response,
       fetch url ac = Fulfilled response -> ok response = false ->
       outcome = Rejected (Error ("Bad response: " +:+ pretty (status response)
                                    +:+ " for " +:+ url))) /\
    (forall v,
       outcome = Fulfilled v ->
       exists response,
         fetch url ac = Fulfilled response /\ ok response = true /\
         data v = blob response /\
         expires v <> Some "" /\ cacheControl v <> Some "").
Proof.
  intros Hurl. unfold getData. rewrite Hurl. eexists. split; [reflexivity|].
  assert (forall v, or_undefined v <> Some "") as Hheader.
  { intros [s|]; [|done]. unfold or_undefined.
    destruct (decide (s = "")); [done|congruence]. }
  destruct (fetch url ac) as [response|e].
  - split; [done|]. split.
    + intros ? [= <-] Hok. by rewrite Hok.
    + intros v Hv. exists response. destruct (ok response); [|done].
      simpl in Hv. injection Hv as <-. simpl. by repeat split.
  - split; [by intros ? [= <-]|]. by split.
Qed.

(** ** The outbox *)

Lemma onmessage_frame (m : Response) (w : Worker) :
  posted (snd (onmessage m w)) = posted w /\
  id (snd (onmessage m w)) = id w /\
  length (promises (snd (onmessage m w))) = length (promises w).
Proof.
  destruct (callbacks w !! res_id m) as [[h]|] eqn:Hm.
  - rewrite (onmessage_hit m w (resolve h)) by done. cbn [posted id promises].
    split; [done|]. split; [done|]. unfold settlePromise.
    destruct (promises w !! h) as [[| |]|]; by rewrite ?length_insert.
  - by rewrite onmessage_miss.
Qed.

Lemma outbox_run (w : Worker) (es : list event) :
  posted (run fetch w es)
  = posted w ++ imap (fun i => request_of (id w + i)) (delegated_urls es) /\
  id (run fetch w es) = id w + length (delegated_urls es) /\
  length (promises (run fetch w es))
  = length (promises w) + length (delegated_urls es).
Proof.
  revert w. induction es as [|e es IH]; intros w.
  { cbn. by rewrite app_nil_r, !Nat.add_0_r. }
  change (run fetch w (e :: es)) with (run fetch (step fetch w e) es).
  destruct (IH (step fetch w e)) as (-> & -> & ->).
  destruct e as [url|m]; cbn [step delegated_urls].
  - destruct (String.prefix "https://" url) eqn:Hurl.
    + by rewrite getData_direct.
    + rewrite getData_delegated by done. cbn [snd posted id promises].
      rewrite <- app_assoc, length_app. cbn [app length imap].
      split; [|lia]. f_equal. rewrite Nat.add_0_r. f_equal.
      apply imap_ext. intros i u _. unfold compose. f_equal. lia.
  - by destruct (onmessage_frame m w) as (-> & -> & ->).
Qed.

(** X13. What the worker has posted is determined by the calls alone: one
    request for each call that is not an "https://" url, in the order of the
    calls, the [n]-th of them with the id made from [n] and with the url of
    that call. Messages from the host and direct fetches add nothing, and
    the counter and the number of promises made equal the number of
    delegated calls. *)
Theorem posted_requests (es : list event) :
  posted (run fetch init es) = imap request_of (delegated_urls es) /\
  id (run fetch init es) = length (delegated_urls es) /\
  length (promises (run fetch init es)) = length (delegated_urls es).
Proof.
  destruct (outbox_run init es) as (-> & -> & ->). done.
Qed.

(** ** Pending promises and registered resolvers *)

Lemma registered_step (w : Worker) (e : event) :
  wf w -> registered w -> registered (step fetch w e).
Proof.
  intros Hwf Hreg h. destruct e as [url|m]; cbn [step].
  - destruct (String.prefix "https://" url) eqn:Hurl.
    + rewrite getData_direct by done. apply Hreg.
    + rewrite getData_delegated by done. cbn [snd promises callbacks].
      destruct (wf_fresh w (id w) Hwf) as [Hfree _]; [done|].
      intros [Hh|[Hlen Hh]]%lookup_app_Some.
      * destruct (Hreg h Hh) as [k Hk]. exists k.
        rewrite lookup_insert_ne; [done|]. intros <-. congruence.
      * exists (eventId (id w)).
        destruct (h - length (promises w)) as [|?] eqn:Hdiff; [|done].
        replace h with (length (promises w)) by lia. apply lookup_insert_eq.
  - destruct (callbacks w !! res_id m) as [[h']|] eqn:Hm.
    2:{ rewrite onmessage_miss by done. apply Hreg. }
    rewrite (onmessage_hit m w (resolve h')) by done.
    cbn [promises callbacks].
    destruct (wf_callbacks w Hwf _ _ Hm) as (_ & _ & _ & Hp & _).
    rewrite settlePromise_pending by done. intros Hh.
    destruct (decide (h = h')) as [->|Hne].
    { rewrite list_lookup_insert_eq in Hh; [done|]. by apply lookup_lt_Some in Hp. }
    rewrite list_lookup_insert_ne in Hh by done.
    destruct (Hreg h Hh) as [k Hk]. exists k.
    rewrite lookup_delete_ne; [done|]. intros <-. congruence.
Qed.

Lemma registered_run (w : Worker) (es : list event) :
  wf w -> registered w -> registered (run fetch w es).
Proof.
  revert w. induction es as [|e es IH]; intros w Hwf Hreg; [done|].
  apply IH; [by apply wf_step|by apply registered_step].
Qed.

(** X14. In every state the worker can reach, a promise made by [getData]
    is pending exactly when its resolver is still registered: no resolver is
    kept for a settled promise, and no pending promise has lost its
    resolver. *)
Theorem pending_iff_registered (es : list event) (h : nat) :
  promises (run fetch init es) !! h = Some Pending <->
  exists k, callbacks (run fetch init es) !! k = Some (resolve h).
Proof.
  split.
  - apply registered_run; [apply wf_init|]. by intros h' Hh'.
  - intros [k Hk].
    by destruct (wf_callbacks _ (wf_run fetch init es wf_init) _ _ Hk)
      as (_ & _ & _ & ? & _).
Qed.

(** ** Responses in any order *)

Lemma first_response_elem (k : string) (ms : list Response) (v : FetchResponse) :
  first_response k (Message <$> ms) = Some v ->
  exists m, m ∈ ms /\ res_id m = k /\ res_payload m = v.
Proof.
  induction ms as [|m ms IH]; [done|]. cbn [fmap list_fmap first_response].
  destruct (decide (res_id m = k)) as [Hid|Hid].
  - intros [= <-]. exists m. split; [left|done].
  - intros (m' & Hm' & H)%IH. exists m'. split; [by right|done].
Qed.

Lemma first_response_unique (k : string) (ms : list Response) (m : Response) :
  NoDup (res_id <$> ms) -> m ∈ ms -> res_id m = k ->
  first_response k (Message <$> ms) = Some (res_payload m).
Proof.
  induction ms as [|m' ms IH]; intros Hnodup Hm Hid; [by apply elem_of_nil in Hm|].
  rewrite fmap_cons in Hnodup. apply NoDup_cons in Hnodup as [Hfirst Hnodup].
  cbn [fmap list_fmap first_response].
  destruct (decide (res_id m' = k)) as [Hid'|Hid'].
  - apply elem_of_cons in Hm as [->|Hm]; [done|]. exfalso. apply Hfirst.
    rewrite Hid', <- Hid. by apply list_elem_of_fmap_2.
  - apply elem_of_cons in Hm as [->|Hm]; [done|]. by apply IH.
Qed.

Lemma first_response_perm (k : string) (ms ms' : list Response) :
  NoDup (res_id <$> ms) -> ms ≡ₚ ms' ->
  first_response k (Message <$> ms) = first_response k (Message <$> ms').
Proof.
  intros Hnodup Hperm.
  assert (NoDup (res_id <$> ms')) as Hnodup' by by rewrite <- Hperm.
  destruct (first_response k (Message <$> ms)) as [v|] eqn:Hv.
  - apply first_response_elem in Hv as (m & Hm & Hid & <-).
    symmetry. apply first_response_unique; [done| |done]. by rewrite <- Hperm.
  - destruct (first_response k (Message <$> ms')) as [v'|] eqn:Hv'; [|done].
    apply first_response_elem in Hv' as (m & Hm & Hid & <-).
    rewrite <- Hperm in Hm.
    by rewrite (first_response_unique k ms m) in Hv.
Qed.

Lemma callbacks_messages (w : Worker) (ms : list Response) (k : string) :
  callbacks (run fetch w (Message <$> ms)) !! k
  = if decide (k ∈ res_id <$> ms) then None else callbacks w !! k.
Proof.
  revert w. induction ms as [|m ms IH]; intros w.
  { cbn. destruct (decide (k ∈ [])) as [H|_]; [by apply elem_of_nil in H|done]. }
  rewrite !fmap_cons.
  change (run fetch w (Message m :: (Message <$> ms)))
    with (run fetch (snd (onmessage m w)) (Message <$> ms)).
  rewrite IH.
  assert (callbacks (snd (onmessage m w)) = delete (res_id m) (callbacks w))
    as ->.
  { destruct (callbacks w !! res_id m) as [r|] eqn:Hm.
    - by rewrite (onmessage_hit m w r).
    - rewrite onmessage_miss by done. by rewrite delete_id. }
  destruct (decide (k ∈ res_id <$> ms)) as [Hin|Hnot].
  - rewrite decide_True; [done|by right].
  - destruct (decide (k = res_id m)) as [->|Hne].
    + rewrite decide_True by left. apply lookup_delete_eq.
    + rewrite decide_False.
      * by rewrite lookup_delete_ne.
      * by intros [?|?]%elem_of_cons.
Qed.

(** X15. Answers with pairwise different ids may arrive in any order: from a
    state the worker can reach, two arrival orders of the same messages
    leave every promise in the same state and the same resolvers
    registered. *)
Theorem responses_in_any_order (es : list event) (ms ms' : list Response) :
  NoDup (res_id <$> ms) -> ms ≡ₚ ms' ->
  let w := run fetch init es in
  promises (run fetch w (Message <$> ms))
  = promises (run fetch w (Message <$> ms')) /\
  callbacks (run fetch w (Message <$> ms))
  = callbacks (run fetch w (Message <$> ms')).
Proof.
  intros Hnodup Hperm w.
  assert (wf w) as Hwf by apply wf_run, wf_init.
  assert (registered w) as Hreg.
  { apply registered_run; [apply wf_init|]. by intros h' Hh'. }
  assert (forall ms0, delegated_urls (Message <$> ms0) = []) as Hnone.
  { intros ms0. by induction ms0. }
  split.
  - apply list_eq. intros h.
    destruct (promises w !! h) as [[|v|e]|] eqn:Hh.
    + destruct (Hreg h Hh) as [k Hk].
      rewrite !(pending_run fetch w k h) by done.
      by rewrite (first_response_perm k ms ms').
    + by rewrite !(fulfilled_run fetch w _ h v Hh).
    + by apply (wf_not_rejected w Hwf) in Hh.
    + apply lookup_ge_None in Hh.
      rewrite !(proj2 (lookup_ge_None _ _)); [done| |].
      * destruct (outbox_run w (Message <$> ms')) as (_ & _ & ->).
        rewrite Hnone. simpl. lia.
      * destruct (outbox_run w (Message <$> ms)) as (_ & _ & ->).
        rewrite Hnone. simpl. lia.
  - apply map_eq. intros k. rewrite !callbacks_messages.
    destruct (decide (k ∈ res_id <$> ms)) as [Hin|Hnot].
    + rewrite decide_True; [done|]. by rewrite <- Hperm.
    + rewrite decide_False; [done|]. by rewrite <- Hperm.
Qed.

End MoreBridge.

Lemma getData_https_witness :
  RemoteProtocolHandler.getData no_network "https://example.org/1/2/3"
    JS.new_AbortController RemoteProtocolHandler.init
  = (RemoteProtocolHandler.Direct (JS.Rejected (JS.Error "no network")),
     RemoteProtocolHandler.init).
Proof.
  destruct (getData_https no_network "https://example.org/1/2/3"
              JS.new_AbortController RemoteProtocolHandler.init eq_refl)
    as (outcome & Hget & Hrejected & _).
  rewrite Hget. by rewrite (Hrejected _ eq_refl).
Defined.

Lemma rpc_correlation_ids_witness :
  let m := {| RemoteProtocolHandler.res_id := eventId 0;
              RemoteProtocolHandler.res_payload :=
                {| RemoteProtocolHandler.data := [7];
                   RemoteProtocolHandler.expires := None;
                   RemoteProtocolHandler.cacheControl := None |} |} in
  let w := RemoteProtocolHandler.run no_network RemoteProtocolHandler.init
             [RemoteProtocolHandler.Call "dem://1/2/3"] in
  let w' := snd (RemoteProtocolHandler.onmessage m w) in
  RemoteProtocolHandler.invoked w'
  = [(RemoteProtocolHandler.resolve 0, RemoteProtocolHandler.res_payload m)] /\
  RemoteProtocolHandler.onmessage m w' = (JS.Normal tt, w').
Proof.
  intros m w w'.
  destruct (rpc_correlation_ids no_network
              [RemoteProtocolHandler.Call "dem://1/2/3"])
    as (_ & _ & H & _).
  destruct (H m (RemoteProtocolHandler.resolve 0)) as (_ & H1 & _ & _ & H2).
  - vm_compute. reflexivity.
  - split; [exact H1|]. by apply H2.
Defined.

Lemma responses_in_any_order_witness :
  let w := RemoteProtocolHandler.run no_network RemoteProtocolHandler.init
             [RemoteProtocolHandler.Call "dem://1/2/3";
              RemoteProtocolHandler.Call "dem://4/5/6"] in
  RemoteProtocolHandler.promises
    (RemoteProtocolHandler.run no_network w
       (RemoteProtocolHandler.Message <$> [one_byte 1 8; one_byte 0 7]))
  = RemoteProtocolHandler.promises
      (RemoteProtocolHandler.run no_network w
         (RemoteProtocolHandler.Message <$> [one_byte 0 7; one_byte 1 8])) /\
  RemoteProtocolHandler.callbacks
    (RemoteProtocolHandler.run no_network w
       (RemoteProtocolHandler.Message <$> [one_byte 1 8; one_byte 0 7]))
  = RemoteProtocolHandler.callbacks
      (RemoteProtocolHandler.run no_network w
         (RemoteProtocolHandler.Message <$> [one_byte 0 7; one_byte 1 8])).
Proof.
  apply (responses_in_any_order no_network
           [RemoteProtocolHandler.Call "dem://1/2/3";
            RemoteProtocolHandler.Call "dem://4/5/6"]
           [one_byte 1 8; one_byte 0 7] [one_byte 0 7; one_byte 1 8]).
  - apply NoDup_cons. split; [|apply NoDup_singleton].
    intros H%list_elem_of_singleton. vm_compute in H. discriminate.
  - apply perm_swap.
Defined.

(** ** The two sides together *)

Section RoundTrip.

Import JS RemoteProtocolHandler.
Local Open Scope nat_scope.

Variable getProtocol : string -> option ProtocolHandler.Protocol.
Variable fetch : string -> AbortController -> settled HttpResponse.

Lemma prefix_app (s t : string) : String.prefix s (s +:+ t) = true.
Proof.
  induction s as [|c s IH]; [by destruct t|].
  change (String c s +:+ t) with (String c (s +:+ t)). cbn [String.prefix].
  by destruct (ascii_dec c c).
Qed.

(** The host's answer to the request of a delegated call whose protocol
    succeeds. *)
Lemma answer_succeeds (n : nat) (url : string)
    (protocol : ProtocolHandler.Protocol)
    (result : ProtocolHandler.ProtocolResult) :
  getProtocol url = Some protocol ->
  protocol url new_AbortController = Fulfilled result ->
  ProtocolHandler.answer getProtocol (request_of n url)
  = [ {| res_id := eventId n; res_payload := payload_of result |} ].
Proof.
  intros Hprotocol Hresult.
  unfold ProtocolHandler.answer, ProtocolHandler.listener, request_of.
  cbn [ProtocolHandler.msg_id ProtocolHandler.msg_url req_id req_url].
  unfold eventId at 1. rewrite prefix_app. cbn [negb].
  by rewrite Hprotocol, Hresult.
Qed.

(** A delegated call that the host answers: the state after the round
    trip. *)
Lemma request_answered (w : Worker) (url : string)
    (protocol : ProtocolHandler.Protocol)
    (result : ProtocolHandler.ProtocolResult) :
  wf w ->
  String.prefix "https://" url = false ->
  getProtocol url = Some protocol ->
  protocol url new_AbortController = Fulfilled result ->
  ProtocolHandler.request getProtocol fetch url w
  = (Delegated (length (promises w)),
     {| id := S (id w);
        callbacks := callbacks w;
        promises := promises w ++ [FulfilledWith (payload_of result)];
        posted := posted w ++ [request_of (id w) url];
        invoked := invoked w
                   ++ [(resolve (length (promises w)), payload_of result)] |}).
Proof.
  intros Hwf Hurl Hprotocol Hresult. unfold ProtocolHandler.request.
  rewrite getData_delegated by done. cbn [posted].
  rewrite drop_app_length, bind_singleton.
  fold (request_of (id w) url).
  rewrite (answer_succeeds _ _ _ _ Hprotocol Hresult). cbn [foldl].
  destruct (wf_fresh w (id w) Hwf) as [Hfree _]; [done|].
  rewrite (onmessage_hit _ _ (resolve (length (promises w))))
    by apply lookup_insert_eq.
  cbn [id callbacks promises posted invoked res_id res_payload].
  rewrite delete_insert_id by done.
  rewrite settlePromise_pending.
  2:{ rewrite lookup_app_r by done. by rewrite Nat.sub_diag. }
  rewrite insert_app_r_alt by done. by rewrite Nat.sub_diag.
Qed.

(** A delegated call that the host does not answer. *)
Lemma request_unanswered (w : Worker) (url : string) :
  unanswered getProtocol url = true ->
  ProtocolHandler.request getProtocol fetch url w
  = getData fetch url new_AbortController w.
Proof.
  unfold unanswered. intros [Hurl Hfails]%andb_true_iff.
  apply negb_true_iff in Hurl.
  unfold ProtocolHandler.request.
  rewrite getData_delegated by done. cbn [posted].
  rewrite drop_app_length, bind_singleton.
  rewrite answer_fails; [done|]. unfold host_fails. cbn [req_url].
  destruct (getProtocol url) as [protocol|]; [|by left].
  right. destruct (protocol url new_AbortController) as [|e] eqn:He; [done|].
  by exists protocol, e.
Qed.

Lemma wf_request (w : Worker) (url : string) :
  wf w -> wf (snd (ProtocolHandler.request getProtocol fetch url w)).
Proof.
  intros Hwf.
  destruct (request_as_run fetch getProtocol url w) as (es & -> & _).
  by apply wf_run.
Qed.

(** X16. A delegated call whose protocol succeeds on the host is answered
    within the round trip: the promise [getData] returned is fulfilled with
    the protocol's data, cache-control and expiry, one request went out
    under the id made from the counter, the resolver was called once with
    that payload, and the set of registered resolvers is as before. *)
Theorem request_round_trip (es : list event) (url : string)
    (protocol : ProtocolHandler.Protocol)
    (result : ProtocolHandler.ProtocolResult) :
  String.prefix "https://" url = false ->
  getProtocol url = Some protocol ->
  protocol url new_AbortController = Fulfilled result ->
  let w := run fetch init es in
  let h := length (promises w) in
  let w' := snd (ProtocolHandler.request getProtocol fetch url w) in
  fst (ProtocolHandler.request getProtocol fetch url w) = Delegated h /\
  promises w' !! h = Some (FulfilledWith (payload_of result)) /\
  posted w' = posted w ++ [request_of (id w) url] /\
  invoked w' = invoked w ++ [(resolve h, payload_of result)] /\
  callbacks w' = callbacks w.
Proof.
  intros Hurl Hprotocol Hresult w h w'. subst w'.
  rewrite (request_answered w url protocol result) by
    (done || apply wf_run, wf_init).
  cbn [fst snd promises posted invoked callbacks].
  split; [done|]. split; [|done].
  rewrite lookup_app_r by done. by rewrite Nat.sub_diag.
Qed.

Lemma size_callbacks_requests (w : Worker) (urls : list string) :
  wf w ->
  size (callbacks (ProtocolHandler.requests getProtocol fetch w urls))
  = size (callbacks w) + length (filter (unanswered getProtocol) urls).
Proof.
  revert w. induction urls as [|url urls IH]; intros w Hwf.
  { cbn. lia. }
  change (ProtocolHandler.requests getProtocol fetch w (url :: urls))
    with (ProtocolHandler.requests getProtocol fetch
            (snd (ProtocolHandler.request getProtocol fetch url w)) urls).
  rewrite IH by by apply wf_request.
  rewrite filter_cons.
  destruct (decide (unanswered getProtocol url)) as [Hun|Hans].
  - apply Is_true_true in Hun.
    rewrite request_unanswered by done.
    apply andb_true_iff in Hun as [Hurl%negb_true_iff _].
    rewrite getData_delegated by done. cbn [snd callbacks length].
    destruct (wf_fresh w (id w) Hwf) as [Hfree _]; [done|].
    rewrite map_size_insert_None by done. lia.
  - apply Is_true_false in Hans. f_equal.
    destruct (String.prefix "https://" url) eqn:Hurl.
    { unfold ProtocolHandler.request.
      pose proof (getData_direct fetch url new_AbortController w Hurl) as Hw.
      destruct (getData fetch url new_AbortController w) as [p w0].
      cbn [snd] in Hw. subst w0. by rewrite drop_all. }
    unfold unanswered in Hans. rewrite Hurl in Hans. cbn [negb andb] in Hans.
    destruct (getProtocol url) as [protocol|] eqn:Hprotocol; [|done].
    destruct (protocol url new_AbortController) as [result|] eqn:Hresult;
      [|done].
    by rewrite (request_answered w url protocol result).
Qed.

(** X17. Resolvers are removed by answers only. After any sequence of round
    trips from the start, the number of resolvers still registered is the
    number of delegated calls that the host did not answer (no protocol
    registered for the url, or the protocol rejected): each of them stays
    registered for good, and direct fetches and answered calls leave
    none. *)
Theorem unanswered_calls_stay_registered (urls : list string) :
  size (callbacks (ProtocolHandler.requests getProtocol fetch init urls))
  = length (filter (unanswered getProtocol) urls).
Proof.
  rewrite size_callbacks_requests by apply wf_init.
  cbn [init callbacks]. by rewrite map_size_empty.
Qed.

End RoundTrip.

Lemma request_round_trip_witness :
  let w := RemoteProtocolHandler.run no_network RemoteProtocolHandler.init
             [RemoteProtocolHandler.Call "dem://1/2/3"] in
  let w' := snd (ProtocolHandler.request dem_only no_network "dem://4/5/6" w) in
  fst (ProtocolHandler.request dem_only no_network "dem://4/5/6" w)
  = RemoteProtocolHandler.Delegated 1 /\
  RemoteProtocolHandler.promises w' !! 1%nat
  = Some (RemoteProtocolHandler.FulfilledWith
            {| RemoteProtocolHandler.data := [4; 2];
               RemoteProtocolHandler.expires := None;
               RemoteProtocolHandler.cacheControl := Some "no-cache" |}) /\
  RemoteProtocolHandler.callbacks w' = RemoteProtocolHandler.callbacks w.
Proof.
  destruct (request_round_trip dem_only no_network
              [RemoteProtocolHandler.Call "dem://1/2/3"] "dem://4/5/6"
              _ _ eq_refl eq_refl eq_refl)
    as (Hpromise & Hfulfilled & _ & _ & Hcallbacks).
  split; [exact Hpromise|]. split; [exact Hfulfilled|exact Hcallbacks].
Defined.

(* ===================================================================== *)
(** * Further properties of the protocol and its url *)
(* ===================================================================== *)

Section MoreProtocol.

Import JS.

Context {W DemTile : Type}.
Variable fromRawDem : DemTile -> HeightTile.t.
Variable Math_atan : Num.number -> Num.number.
Variable parseFloat : string -> Num.number.
Variable URLSearchParams_get : string -> string -> option string.
Variable Date_now : W -> Z.
Variable Number_toString : Num.number -> string.
Variable URLSearchParams_toString : list (string * string) -> string.

Local Abbreviation Source := (SlopeAngleSource.t W DemTile).
Local Abbreviation slopeProtocol :=
  (SlopeAngleSource.slopeProtocol W DemTile fromRawDem Math_atan parseFloat
     URLSearchParams_get Date_now).
Local Abbreviation timingCallbacks :=
  (SlopeAngleSource.timingCallbacks W DemTile).
Local Abbreviation slopeProtocolUrl :=
  (SlopeAngleSource.slopeProtocolUrl W DemTile).
Local Abbreviation getSlopeProtocolUrl :=
  (SlopeAngleSource.getSlopeProtocolUrl W DemTile Number_toString
     URLSearchParams_toString).
Local Abbreviation url := SlopeAngleSource.url.


(** ** getSlopeProtocolUrl *)

Lemma string_forall_app (p : ascii -> bool) (s t : string) :
  string_forall p (s +:+ t) = string_forall p s && string_forall p t.
Proof.
  induction s as [|c s IH]; [done|].
  change (String c s +:+ t) with (String c (s +:+ t)).
  cbn [string_forall]. by rewrite IH, andb_assoc.
Qed.

Lemma string_forall_pretty_N_go (p : ascii -> bool) (x : N) (s : string) :
  (forall d, (d < 10)%N -> p (pretty_N_char d) = true) ->
  string_forall p s = true -> string_forall p (pretty_N_go x s) = true.
Proof.
  intros Hp. revert s. induction (N.lt_wf_0 x) as [x _ IH]; intros s Hs.
  assert (x = 0 \/ 0 < x)%N as [->|Hx] by lia; [by rewrite pretty_N_go_0|].
  rewrite pretty_N_go_step by done. apply IH; [by apply N.div_lt|].
  cbn [string_forall]. rewrite Hs, Hp; [done|]. apply N.mod_lt. lia.
Qed.

Lemma no_question_pretty (n : nat) : no_question (pretty n) = true.
Proof.
  unfold pretty, pretty_nat, pretty, pretty_N.
  destruct (decide (N.of_nat n = 0%N)); [done|].
  apply string_forall_pretty_N_go; [|done].
  intros d Hd.
  assert (d = 0 \/ d = 1 \/ d = 2 \/ d = 3 \/ d = 4 \/ d = 5 \/ d = 6
          \/ d = 7 \/ d = 8 \/ d = 9)%N as Hcases by lia.
  repeat (destruct Hcases as [->|Hcases]; [done|]). by subst.
Qed.

Lemma query_none (base : string) :
  no_question base = true -> SlopeAngleSource.query base = "".
Proof.
  induction base as [|c base IH]; [done|].
  unfold no_question. cbn [string_forall SlopeAngleSource.query].
  intros [Hc Hbase]%andb_true_iff.
  destruct (Ascii.eqb c "?"); [done|]. by apply IH.
Qed.

Lemma query_first (base q : string) :
  no_question base = true -> no_question q = true ->
  SlopeAngleSource.query (base +:+ "?" +:+ q) = q.
Proof.
  intros Hbase Hq. induction base as [|c base IH].
  - change ("" +:+ "?" +:+ q) with (String "?" q).
    cbn [SlopeAngleSource.query]. change (Ascii.eqb "?" "?") with true.
    cbv iota. by apply upto_question_app.
  - unfold no_question in Hbase. cbn [string_forall] in Hbase.
    apply andb_true_iff in Hbase as [Hc Hbase].
    change (String c base +:+ ?s) with (String c (base +:+ s)).
    cbn [SlopeAngleSource.query].
    destruct (Ascii.eqb c "?"); [done|]. by apply IH.
Qed.

Lemma new_url (manager : SlopeAngleSource.DemManager W DemTile)
    (id : option string) (used used' : gset string) (source : Source) :
  SlopeAngleSource.new W DemTile manager id used = Some (source, used') ->
  no_question (default "slope" id) = true ->
  no_question (slopeProtocolUrl source) = true.
Proof.
  intros Hnew Hid.
  destruct (new_spec manager id used)
    as (prefix & source' & Hnew' & Hprefix & _ & Hwhich).
  rewrite Hnew in Hnew'. injection Hnew' as <- _.
  assert (slopeProtocolUrl source
          = SlopeAngleSource.slopeProtocolId W DemTile source
            +:+ "://{z}/{x}/{y}") as ->.
  { revert Hnew. unfold SlopeAngleSource.new.
    destruct (SlopeAngleSource.uniquePrefix _ _ _ _ _); [|done].
    by intros [= <- _]. }
  rewrite Hprefix. unfold no_question in *. rewrite !string_forall_app.
  assert (string_forall (fun c => negb (Ascii.eqb c "?")) prefix = true) as ->.
  { destruct Hwhich as [->|(k & _ & -> & _)]; [done|].
    unfold suffixed. rewrite string_forall_app, Hid.
    apply no_question_pretty. }
  done.
Qed.

(** X19. The url template of a freshly constructed source whose base id has
    no question mark carries its options where the protocol looks for them:
    the options that are given are set in the order [maxAngle], [pixelSize],
    each once, and when the platform's serialization of these pairs has no
    question mark of its own (as it escapes them), the query string that
    [slopeProtocolV4] reads from the template is exactly that serialization.
    With an empty serialization the template is the plain protocol url. *)
Theorem getSlopeProtocolUrl_query
    (manager : SlopeAngleSource.DemManager W DemTile)
    (id : option string) (used used' : gset string) (source : Source)
    (options : SlopeAngleSource.SlopeAngleOptions) :
  SlopeAngleSource.new W DemTile manager id used = Some (source, used') ->
  no_question (default "slope" id) = true ->
  let queryString :=
    URLSearchParams_toString (options_params Number_toString options) in
  no_question queryString = true ->
  SlopeAngleSource.query (getSlopeProtocolUrl source options) = queryString /\
  (queryString = "" ->
   getSlopeProtocolUrl source options = slopeProtocolUrl source).
Proof.
  intros Hnew Hid queryString Hquery.
  pose proof (new_url manager id used used' source Hnew Hid) as Hurl.
  assert (getSlopeProtocolUrl source options
          = slopeProtocolUrl source
            +:+ (if decide (queryString = "") then ""
                 else "?" +:+ queryString)) as ->.
  { unfold SlopeAngleSource.getSlopeProtocolUrl, queryString, options_params.
    by destruct (SlopeAngleSource.maxAngle options),
                (SlopeAngleSource.pixelSize options). }
  destruct (decide (queryString = "")) as [Hempty|Hfull].
  - rewrite string_app_nil_r. split; [|done].
    rewrite Hempty. by apply query_none.
  - split; [by apply query_first|done].
Qed.

End MoreProtocol.


Lemma getSlopeProtocolUrl_query_witness :
  let source :=
    SlopeAngleSource.Build unit HeightTile.t "slope-slope"
      "slope-slope://{z}/{x}/{y}" silent_manager [] in
  let options :=
    {| SlopeAngleSource.maxAngle := Some (Num.of_Z 30);
       SlopeAngleSource.pixelSize := Some (Num.of_Z 12) |} in
  SlopeAngleSource.getSlopeProtocolUrl unit HeightTile.t whole_toString
    plain_toString source options
  = "slope-slope://{z}/{x}/{y}?maxAngle=30&pixelSize=12" /\
  SlopeAngleSource.query
    (SlopeAngleSource.getSlopeProtocolUrl unit HeightTile.t whole_toString
       plain_toString source options)
  = "maxAngle=30&pixelSize=12".
Proof.
  intros source options.
  assert (SlopeAngleSource.new unit HeightTile.t silent_manager None ∅
          = Some (source, {[ "slope" ]} ∪ ∅)) as Hnew
    by (vm_compute; reflexivity).
  split; [vm_compute; reflexivity|].
  etrans.
  - exact (proj1 (getSlopeProtocolUrl_query whole_toString plain_toString
                    silent_manager None ∅ _ source options Hnew eq_refl
                    eq_refl)).
  - vm_compute. reflexivity.
Defined.

(* ===================================================================== *)
(** * Parameters that are not numbers *)
(* ===================================================================== *)

(** [parseFloat] gives NaN for a [maxAngle] or a [pixelSize] parameter that
    is no number; the tile functions take it as it comes. *)

Lemma div_nan (a : Num.number) : Num.div a Num.NaN = Num.NaN.
Proof. by destruct a. Qed.

Lemma bind_constant {A : Type} (f : nat -> list A) (bytes : list A) (n : nat) :
  (forall p, f p = bytes) ->
  seq 0 n ≫= f = mjoin (replicate n bytes).
Proof.
  intros Hf. induction n as [|n IH]; [done|].
  rewrite seq_S, bind_app, IH. cbn [seq]. rewrite bind_singleton, Hf.
  rewrite replicate_S_end, join_app. cbn. by rewrite app_nil_r.
Qed.

(** X20. With a [maxAngle] that is NaN, [toImageBuffer] fails nowhere and
    draws every pixel black: the three color bytes are 0, and the alpha byte
    still tells a pixel with an angle (255) from one without (0). *)
Theorem toImageBuffer_nan_maxAngle (this : SlopeAngleTile.t) (x y : nat) :
  (x < SlopeAngleTile.width this)%nat ->
  (y < SlopeAngleTile.height this)%nat ->
  rgba (SlopeAngleTile.toImageBuffer this (Some Num.NaN))
       (SlopeAngleTile.width this) x y
  = [0; 0; 0;
     if isNaN (SlopeAngleTile.get this (Z.of_nat x) (Z.of_nat y))
     then 0 else 255].
Proof.
  intros Hx Hy. rewrite rgba_toImageBuffer by done. cbv zeta.
  cbn [default]. unfold code_gray. rewrite div_nan.
  by destruct (isNaN _).
Qed.

Lemma toImageBuffer_nan_maxAngle_witness :
  rgba (SlopeAngleTile.toImageBuffer ten_degrees (Some Num.NaN)) 1 0 0
  = [0; 0; 0; 255].
Proof.
  apply (toImageBuffer_nan_maxAngle ten_degrees 0 0); simpl; lia.
Defined.

(** X21. With a [pixelSize] that is NaN, and an [atan] that maps NaN to NaN,
    [fromHeightTile] gives a tile that is NaN at every coordinate, whatever
    the elevations, and its image is fully transparent: every byte of the
    buffer is 0. *)
Theorem fromHeightTile_nan_pixelSize (Math_atan : Num.number -> Num.number)
    (heightTile : HeightTile.t) (maxAngle : option Num.number) :
  Math_atan Num.NaN = Num.NaN ->
  let tile :=
    SlopeAngleTile.fromHeightTile Math_atan heightTile (Some Num.NaN) in
  (forall x y : Z, SlopeAngleTile.get tile x y = Num Num.NaN) /\
  SlopeAngleTile.toImageBuffer tile maxAngle
  = replicate (HeightTile.height heightTile * HeightTile.width heightTile * 4)
              0.
Proof.
  intros Hatan tile.
  assert (forall x y : Z, SlopeAngleTile.get tile x y = Num Num.NaN) as Hnan.
  { intros x y. unfold tile.
    destruct (decide (in_bounds (HeightTile.width heightTile)
                        (HeightTile.height heightTile) x y)) as [Hin|Hout].
    2:{ by apply fromHeightTile_outside. }
    rewrite fromHeightTile_get by done.
    destruct (existsb _ _); [done|]. f_equal.
    unfold horn_degrees, horn_dzdx, horn_dzdy. cbn [default].
    change (Num.mul (Num.of_Z 8) Num.NaN) with Num.NaN.
    rewrite !div_nan.
    change (Num.sqrt (Num.add (Num.mul Num.NaN Num.NaN)
                        (Num.mul Num.NaN Num.NaN))) with Num.NaN.
    rewrite Hatan. reflexivity. }
  split; [done|].
  rewrite toImageBuffer_bytes.
  rewrite (bind_constant _ [0; 0; 0; 0]).
  - change (SlopeAngleTile.height tile) with (HeightTile.height heightTile).
    change (SlopeAngleTile.width tile) with (HeightTile.width heightTile).
    generalize (HeightTile.height heightTile * HeightTile.width heightTile)%nat.
    intros n. induction n as [|n IH]; [done|].
    simpl. do 4 f_equal. exact IH.
  - intros p. rewrite pixelBytes_eq. cbv zeta. by rewrite Hnan.
Qed.

Lemma fromHeightTile_nan_pixelSize_witness :
  SlopeAngleTile.toImageBuffer
    (SlopeAngleTile.fromHeightTile atan_first_order flat (Some Num.NaN)) None
  = replicate 16 0.
Proof.
  exact (proj2 (fromHeightTile_nan_pixelSize atan_first_order flat None
                  eq_refl)).
Defined.
